(** * ollama_tool: chunking, JSON recovery, aggregation and table output

  A shallow embedding of [ollama_tool.py].  Python integers are [Z],
  Python [str] is [string], a Python call that can raise returns a
  [result], and the one loop whose termination is in question
  ([chunk_text]) is run on fuel: [None] means the fuel ran out before
  the loop was left. *)

From Stdlib Require Import ZArith List String Ascii Bool Lia.
Import ListNotations.

Local Open Scope string_scope.
Local Open Scope list_scope.
Local Open Scope Z_scope.

Set Warnings "-register-all".

(** ** Python values, exceptions and calls that can raise *)

Module Py.

(** The values [json.loads] can produce, named after their Python types.
    A [dict] keeps its insertion order, so it is an association list.
    A float is kept as the literal it was read from. *)
Inductive value : Type :=
| PyNone
| PyBool (b : bool)
| PyInt (n : Z)
| PyFloat (literal : string)
| PyStr (s : string)
| PyList (items : list value)
| PyDict (items : list (string * value)).

(** [ValueError] also stands for its subclass [json.JSONDecodeError]. *)
Inductive exn : Type :=
| RuntimeError (msg : string)
| ValueError (msg : string)
| OSError (msg : string).

Inductive result (A : Type) : Type :=
| Ok (a : A)
| Raise (e : exn).
Arguments Ok {A} a.
Arguments Raise {A} e.

Definition bind {A B : Type} (r : result A) (k : A -> result B) : result B :=
  match r with
  | Ok a => k a
  | Raise e => Raise e
  end.

(** [isinstance(v, list)] and [isinstance(v, dict)]. *)
Definition is_list (v : value) : bool :=
  match v with PyList _ => true | _ => false end.
Definition is_dict (v : value) : bool :=
  match v with PyDict _ => true | _ => false end.

End Py.

Notation "x <- c1 ;; c2" := (Py.bind c1 (fun x => c2))
(at level 61, c1 at next level, right associativity).

(** ** Python strings *)

Module PyStr.
Import Py.

(** [len(s)] as a Python integer. *)
Definition len (s : string) : Z := Z.of_nat (String.length s).

(** One bound of a slice, adjusted the way Python adjusts it: a negative
    index counts from the end, and the result is clamped to [0, len]. *)
Definition adjust (n i : Z) : Z :=
  if i <? 0 then Z.max (i + n) 0 else Z.min i n.

(** [s[start:stop]]. *)
Definition slice (s : string) (start stop : Z) : string :=
  let a := adjust (len s) start in
  let b := adjust (len s) stop in
  substring (Z.to_nat a) (Z.to_nat (b - a)) s.

(** [s.find(sub)]: the lowest index at which [sub] occurs. *)
Fixpoint find (sub s : string) : option nat :=
  if prefix sub s then Some O
  else match s with
       | EmptyString => None
       | String _ s' => option_map S (find sub s')
       end.

(** [s.rfind(sub)]: the highest index at which [sub] occurs. *)
Fixpoint rfind (sub s : string) : option nat :=
  match s with
  | EmptyString => if prefix sub s then Some O else None
  | String _ s' =>
      match rfind sub s' with
      | Some i => Some (S i)
      | None => if prefix sub s then Some O else None
      end
  end.

(** [s.index(sub)] and [s.rindex(sub)] raise where [find] finds nothing. *)
Definition index (s sub : string) : result Z :=
  match find sub s with
  | Some i => Ok (Z.of_nat i)
  | None => Raise (ValueError "substring not found")
  end.

Definition rindex (s sub : string) : result Z :=
  match rfind sub s with
  | Some i => Ok (Z.of_nat i)
  | None => Raise (ValueError "substring not found")
  end.

(** The parts of a text, one after the other. *)
Definition join (parts : list string) : string :=
  fold_right append "" parts.

(** [c.lower()] on one ASCII character. *)
Definition lower_char (c : ascii) : ascii :=
  let n := nat_of_ascii c in
  if ((65 <=? n) && (n <=? 90))%nat then ascii_of_nat (n + 32) else c.

Definition upper_char (c : ascii) : ascii :=
  let n := nat_of_ascii c in
  if ((97 <=? n) && (n <=? 122))%nat then ascii_of_nat (n - 32) else c.

(** [s.lower()]. *)
Fixpoint lower (s : string) : string :=
  match s with
  | EmptyString => EmptyString
  | String c s' => String (lower_char c) (lower s')
  end.

End PyStr.

(** ** Chunker *)

Module Chunker.
Import PyStr.

(** The two variables the loop of [chunk_text] updates. *)
Record loop_state : Type := LoopState {
  start : Z;
  chunks : list string
}.

(** One pass through the body of the [while], up to the [break] test. *)
Definition iteration (text : string) (chunk_size overlap : Z)
    (st : loop_state) : loop_state :=
  let end_ := Z.min (start st + chunk_size) (len text) in
  {| start := end_ - overlap;
     chunks := chunks st ++ [slice text (start st) end_] |}.

(** The [while] loop.  One unit of fuel is spent per pass. *)
Fixpoint chunk_loop (fuel : nat) (text : string) (chunk_size overlap : Z)
    (st : loop_state) : option loop_state :=
  if start st <? len text then
    match fuel with
    | O => None
    | S fuel' =>
        let st' := iteration text chunk_size overlap st in
        if start st' >=? len text then Some st'
        else chunk_loop fuel' text chunk_size overlap st'
    end
  else Some st.

Definition chunk_text (fuel : nat) (text : string) (chunk_size overlap : Z)
    : option (list string) :=
  match chunk_loop fuel text chunk_size overlap
          {| start := 0; chunks := [] |} with
  | Some st =>
      Some (match chunks st with [] => [text] | _ :: _ => chunks st end)
  | None => None
  end.

Definition default_chunk_size : Z := 8000.
Definition default_overlap : Z := 500.

End Chunker.

(** ** Text source adapter *)

Module TextSource.
Import Py PyStr.

Section WithReaders.

(** [Path(p).suffix], from [pathlib]. *)
Variable suffix : string -> string.
(** The format readers, which open files and external programs. *)
Variable extract_pdf : string -> result string.
Variable extract_docx : string -> result string.
Variable convert_doc_to_docx : string -> result string.

Definition extract_text (file_path : string) : result string :=
  let sfx := lower (suffix file_path) in
  if (sfx =? ".pdf")%string then extract_pdf file_path
  else if (sfx =? ".docx")%string then extract_docx file_path
  else if (sfx =? ".doc")%string then
    converted <- convert_doc_to_docx file_path ;;
    extract_docx converted
  else Raise (RuntimeError ("Unsupported file extension: " ++ sfx)).

End WithReaders.

(** [s] spells [canon] in some mix of upper and lower case. *)
Inductive case_variant : string -> string -> Prop :=
| cv_nil : case_variant "" ""
| cv_same c canon s :
    case_variant canon s -> case_variant (String c canon) (String c s)
| cv_upper c canon s :
    case_variant canon s ->
    case_variant (String c canon) (String (upper_char c) s).

End TextSource.

(** ** Resilient JSON extractor *)

Module Extractor.
Import Py PyStr.

Section WithJson.

(** [json.loads]. *)
Variable loads : string -> result value.

(** The two fallbacks share their shape: slice from the first [open] to
    the last [close], both included, and parse the slice. *)
Definition parse_between (s open close : string) : result value :=
  start <- index s open ;;
  end_ <- rindex s close ;;
  loads (slice s start (end_ + 1)).

(** Every [except Exception] discards the exception and goes on; the
    innermost one returns [None]. *)
Definition try_parse_json (s : string) : value :=
  match loads s with
  | Ok v => v
  | Raise _ =>
      match parse_between s "{" "}" with
      | Ok v => v
      | Raise _ =>
          match parse_between s "[" "]" with
          | Ok v => v
          | Raise _ => PyNone
          end
      end
  end.

(** The words of the specification: where the first [c] and the last [c]
    of a text are. *)
Definition first_at (c : ascii) (s : string) (i : nat) : Prop :=
  String.get i s = Some c /\
  forall k, (k < i)%nat -> String.get k s <> Some c.

Definition last_at (c : ascii) (s : string) (j : nat) : Prop :=
  String.get j s = Some c /\
  forall k, (j < k)%nat -> String.get k s <> Some c.

(** The characters of [s] from position [i] to position [j], both
    included; nothing when [j] is before [i]. *)
Definition inclusive (s : string) (i j : nat) : string :=
  substring i (S j - i) s.

(** The slice from the first [open] to the last [close] exists and parses
    to [v]. *)
Definition recovers (open close : ascii) (s : string) (v : value) : Prop :=
  exists i j,
    first_at open s i /\ last_at close s j /\ loads (inclusive s i j) = Ok v.

Definition fails {A : Type} (r : result A) : Prop := exists e, r = Raise e.

End WithJson.

(** A finite table standing for [json.loads] in the examples. *)
Definition sample_loads (s : string) : result value :=
  if (s =? "5")%string then Ok (PyInt 5)
  else if (s =? "{}")%string then Ok (PyDict [])
  else if (s =? "[1,2]")%string then Ok (PyList [PyInt 1; PyInt 2])
  else Raise (ValueError "Expecting value").

End Extractor.

(** ** Aggregator *)

Module Aggregator.
Import Py.

(** What the loop of [main] does with one parsed reply. *)
Definition aggregate_step (all_parsed : list value) (parsed : value)
    : list value :=
  match parsed with
  | PyNone => all_parsed
  | PyList items => all_parsed ++ items
  | PyDict _ => all_parsed ++ [parsed]
  | _ => all_parsed
  end.

(** [all_parsed] after the replies of all chunks, in chunk order. *)
Definition aggregate (parsed_values : list value) : list value :=
  fold_left aggregate_step parsed_values [].

(** The words of the specification: the records one recovered value
    contributes. *)
Definition contribution (v : value) : list value :=
  match v with
  | PyList items => items
  | PyDict _ => [v]
  | _ => []
  end.

(** A JSON value that is neither an object nor an array, nor [None]. *)
Definition scalar (v : value) : Prop :=
  match v with
  | PyBool _ | PyInt _ | PyFloat _ | PyStr _ => True
  | PyNone | PyList _ | PyDict _ => False
  end.

End Aggregator.

(** ** Table materializer *)

Module Materializer.
Import Py PyStr.

Inductive cell : Type :=
| Empty
| Cell (v : value).

Record DataFrame : Type := {
  columns : list string;
  rows : list (list cell)
}.

Inductive message : Type :=
| Saved (out_path : string) (records : nat)
| NoValidJson.

(** What the run leaves behind: directories made, files written, lines
    printed. *)
Inductive event : Type :=
| Mkdir (parent_of : string)
| ToExcel (out_path : string) (df : DataFrame)
| ToCsv (out_path : string) (df : DataFrame)
| Print (msg : message).

Definition is_persist (ev : event) : bool :=
  match ev with
  | ToExcel _ _ | ToCsv _ _ => true
  | _ => false
  end.

Definition not_list_dict : string :=
  "Parsed output is not list/dict, cannot convert to table".

(** The calls that touch the file system, each of which may raise:
    [out_path.parent.mkdir(parents=True, exist_ok=True)],
    [df.to_excel(out_path, index=False)] and
    [df.to_csv(out_path, index=False)]. *)
Record file_system : Type := {
  mkdir : string -> result unit;
  to_excel : DataFrame -> string -> result unit;
  to_csv : DataFrame -> string -> result unit
}.

Section WithPandas.

(** [pd.DataFrame(...)]. *)
Variable pd_DataFrame : value -> result DataFrame.
(** [Path(p).suffix], from [pathlib]. *)
Variable suffix : string -> string.
Variable fs : file_system.

(** The table [save_structured] builds from its argument. *)
Definition build_frame (output_obj : value) : result DataFrame :=
  match output_obj with
  | PyList _ => pd_DataFrame output_obj
  | PyDict items =>
      if forallb (fun kv => is_list (snd kv)) items
      then pd_DataFrame output_obj
      else pd_DataFrame (PyList [output_obj])
  | _ => Raise (RuntimeError not_list_dict)
  end.

(** A call that returns lists the file system calls it made, in order; a
    call that raises says which exception, not what was done before. *)
Definition save_structured (output_obj : value) (out_path : string)
    : result (list event) :=
  df <- build_frame output_obj ;;
  _ <- mkdir fs out_path ;;
  if existsb (String.eqb (lower (suffix out_path))) [".xlsx"; ".xls"]
  then _ <- to_excel fs df out_path ;;
       Ok [Mkdir out_path; ToExcel out_path df]
  else _ <- to_csv fs df out_path ;;
       Ok [Mkdir out_path; ToCsv out_path df].

(** The end of [main]: save what was gathered, or warn. *)
Definition main_save (all_parsed : list value) (out : string)
    : result (list event) :=
  match all_parsed with
  | _ :: _ =>
      evs <- save_structured (PyList all_parsed) out ;;
      Ok (evs ++ [Print (Saved out (List.length all_parsed))])%list
  | [] => Ok [Print NoValidJson]
  end.

End WithPandas.

(** Modelled from the spec: the table [pd.DataFrame] builds from a list of
    row objects; pandas is not part of the repository.  The columns are
    the keys of all records in first-seen order, there is one row per
    record, and a key a record lacks gives an empty cell. *)
Fixpoint first_seen (keys : list string) : list string :=
  match keys with
  | [] => []
  | k :: keys' =>
      k :: filter (fun k' => negb (k' =? k)%string) (first_seen keys')
  end.

Definition keys_of (record : list (string * value)) : list string :=
  map fst record.

Definition lookup (k : string) (record : list (string * value))
    : option value :=
  match List.find (fun kv => (fst kv =? k)%string) record with
  | Some kv => Some (snd kv)
  | None => None
  end.

Definition cell_of (record : list (string * value)) (k : string) : cell :=
  match lookup k record with
  | Some v => Cell v
  | None => Empty
  end.

Definition frame_of_rows (records : list (list (string * value)))
    : DataFrame :=
  let cols := first_seen (List.concat (map keys_of records)) in
  {| columns := cols;
     rows := map (fun r => map (cell_of r) cols) records |}.

(** A table constructor for the examples: row objects as above, anything
    else refused. *)
Fixpoint as_records (items : list value)
    : option (list (list (string * value))) :=
  match items with
  | [] => Some []
  | PyDict r :: items' => option_map (cons r) (as_records items')
  | _ :: _ => None
  end.

Definition sample_DataFrame (v : value) : result DataFrame :=
  match v with
  | PyList items =>
      match as_records items with
      | Some records => Ok (frame_of_rows records)
      | None => Raise (ValueError "not row objects")
      end
  | _ => Raise (ValueError "not row objects")
  end.

(** File systems for the examples: one on which every call succeeds, and
    one on which no directory can be made. *)
Definition sample_fs : file_system :=
  {| mkdir := fun _ => Ok tt;
     to_excel := fun _ _ => Ok tt;
     to_csv := fun _ _ => Ok tt |}.


(** A stand-in for [Path(p).suffix] in the examples: the text from the
    last dot on. *)
Definition sample_suffix (p : string) : string :=
  match rfind "." p with
  | Some i => substring i (String.length p - i) p
  | None => ""
  end.

End Materializer.

(** ** The run as a whole *)

Module Pipeline.
Import Py PyStr Chunker Aggregator.

Definition nl : string := String "010"%char "".

Definition build_prompt (user_prompt doc_text : string) : string :=
  let header :=
    ("You are a tool that extracts structured data from the provided document." ++ nl ++
     "Return the result in strict JSON format, suitable for loading into a spreadsheet (a list of objects)." ++ nl ++
     "Document follows below. Use the user's prompt to decide what fields to extract." ++ nl ++ nl)%string in
  (header ++ "USER INSTRUCTIONS:" ++ nl ++ user_prompt ++ nl ++ nl
     ++ "DOCUMENT TEXT:" ++ nl ++ doc_text)%string.

(** The command line, without [--temp-prompt]. *)
Record args : Type := {
  input : string;
  model : string;
  prompt : string;
  out : string;
  chunk_size : Z
}.

Section WithCollaborators.

Variable suffix : string -> string.
Variable extract_pdf : string -> result string.
Variable extract_docx : string -> result string.
Variable convert_doc_to_docx : string -> result string.
(** [run_ollama_with_cmd], given the model and the text of the prompt file:
    writing and removing that file is not modelled. *)
Variable run_ollama_with_cmd : string -> string -> result string.
Variable loads : string -> result value.
Variable pd_DataFrame : value -> result Materializer.DataFrame.
Variable fs : Materializer.file_system.

(** The [for] loop of [main], without its progress lines. *)
Fixpoint main_loop (a : args) (chunks : list string) (all_parsed : list value)
    : result (list value) :=
  match chunks with
  | [] => Ok all_parsed
  | chunk :: rest =>
      reply <- run_ollama_with_cmd (model a) (build_prompt (prompt a) chunk) ;;
      main_loop a rest
        (aggregate_step all_parsed (Extractor.try_parse_json loads reply))
  end.

(** [main] calls [chunk_text] with the chunk size of the command line and
    the default overlap. *)
Definition main (fuel : nat) (a : args)
    : option (result (list Materializer.event)) :=
  match TextSource.extract_text suffix extract_pdf extract_docx
          convert_doc_to_docx (input a) with
  | Raise e => Some (Raise e)
  | Ok doc_text =>
      match chunk_text fuel doc_text (chunk_size a) default_overlap with
      | None => None
      | Some chunks =>
          Some (all_parsed <- main_loop a chunks [] ;;
                Materializer.main_save pd_DataFrame suffix fs all_parsed
                  (out a))
      end
  end.

End WithCollaborators.

End Pipeline.

(** ** Format readers *)

Module Readers.
Import Py PyStr.

(** [t or ""]. *)
Definition or_empty (t : option string) : string :=
  match t with
  | Some s => s
  | None => ""
  end.

(** The separator both readers join with: an empty line. *)
Definition blank_line : string := (Pipeline.nl ++ Pipeline.nl)%string.

Section WithLibraries.

(** [PdfReader], [None] when PyPDF2 could not be imported.  Given a path
    it yields what [extract_text()] returns for each page of
    [reader.pages], in order; a page may return [None]. *)
Variable PdfReader : option (string -> result (list (option string))).
(** [Document], [None] when python-docx could not be imported.  Given a
    path it yields the [text] of each paragraph of [doc.paragraphs]. *)
Variable Document : option (string -> result (list string)).

Definition extract_pdf (path : string) : result string :=
  match PdfReader with
  | None =>
      Raise (RuntimeError "PyPDF2 not installed. Install from requirements.txt")
  | Some reader =>
      pages <- reader path ;;
      Ok (String.concat blank_line (map or_empty pages))
  end.

Definition extract_docx (path : string) : result string :=
  match Document with
  | None =>
      Raise (RuntimeError
               "python-docx not installed. Install from requirements.txt")
  | Some open_doc =>
      paragraphs <- open_doc path ;;
      Ok (String.concat blank_line paragraphs)
  end.

End WithLibraries.

End Readers.

(** ** Words for the properties of the chunker and the prompt *)

Module Windows.
Import PyStr.

(** The quotient of [a] by [b], rounded up. *)
Definition ceil_div (a b : Z) : Z := (a + b - 1) / b.

(** The window a cursor at [k] strides from the start sees. *)
Definition window (text : string) (chunk_size overlap : Z) (k : nat)
    : string :=
  let at_ := Z.of_nat k * (chunk_size - overlap) in
  slice text at_ (Z.min (at_ + chunk_size) (len text)).

Definition windows (text : string) (chunk_size overlap : Z) (n : nat)
    : list string :=
  map (window text chunk_size overlap) (seq 0 n).

(** What [build_prompt] puts between the instructions and the document. *)
Definition document_marker : string :=
  (Pipeline.nl ++ Pipeline.nl ++ "DOCUMENT TEXT:" ++ Pipeline.nl)%string.

(** No character [c] in [s]. *)
Definition absent (c : ascii) (s : string) : Prop :=
  forall k, String.get k s <> Some c.

End Windows.

(** * Properties *)

Import Py PyStr.

(** ** Slices *)

Lemma substring_none (s : string) (a : nat) : substring a 0 s = "".
Proof.
  revert a; induction s as [|c s IH]; intros [|a]; simpl; auto.
Qed.

Lemma substring_split (s : string) :
  forall a n m,
    (substring a n s ++ substring (a + n) m s)%string = substring a (n + m) s.
Proof.
  induction s as [|c s IH]; intros a n m.
  - destruct a, n, m; reflexivity.
  - destruct a as [|a].
    + destruct n as [|n]; simpl.
      * reflexivity.
      * f_equal. apply (IH 0%nat).
    + simpl. apply IH.
Qed.

Lemma substring_all (s : string) : substring 0 (String.length s) s = s.
Proof.
  induction s as [|c s IH]; simpl; [reflexivity | now rewrite IH].
Qed.

Lemma len_nonneg (s : string) : 0 <= len s.
Proof. unfold len; lia. Qed.

Lemma len_empty (s : string) : len s = 0 -> s = "".
Proof. destruct s; unfold len; simpl; [reflexivity | lia]. Qed.

Lemma slice_inside (s : string) (a b : Z) :
  0 <= a <= b -> b <= len s ->
  slice s a b = substring (Z.to_nat a) (Z.to_nat b - Z.to_nat a) s.
Proof.
  intros Ha Hb. unfold slice, adjust.
  destruct (Z.ltb_spec a 0), (Z.ltb_spec b 0); try lia.
  rewrite !Z.min_l by lia. f_equal. lia.
Qed.

Lemma slice_split (s : string) (a b c : Z) :
  0 <= a <= b -> b <= c <= len s ->
  (slice s a b ++ slice s b c)%string = slice s a c.
Proof.
  intros Hab Hbc. rewrite !slice_inside by lia.
  replace (Z.to_nat b) with (Z.to_nat a + (Z.to_nat b - Z.to_nat a))%nat at 2
    by lia.
  rewrite substring_split. f_equal. lia.
Qed.

Lemma slice_whole (s : string) : slice s 0 (len s) = s.
Proof.
  rewrite slice_inside by (pose proof (len_nonneg s); lia).
  unfold len. rewrite Nat2Z.id. simpl. rewrite Nat.sub_0_r.
  apply substring_all.
Qed.

Lemma slice_nothing (s : string) (a : Z) : 0 <= a <= len s -> slice s a a = "".
Proof.
  intros Ha. rewrite slice_inside by lia. rewrite Nat.sub_diag.
  apply substring_none.
Qed.

Lemma join_snoc (parts : list string) (p : string) :
  join (parts ++ [p]) = (join parts ++ p)%string.
Proof.
  induction parts as [|q parts IH]; simpl.
  - clear. induction p as [|c p IH]; simpl; [reflexivity | now rewrite IH].
  - rewrite IH. clear. induction q as [|c q IH]; simpl; [reflexivity|].
    now rewrite IH.
Qed.

(** ** Chunker *)

Section ChunkerFacts.
Import Chunker.

Variable text : string.
Variables chunk_size overlap : Z.

Local Abbreviation run fuel st := (chunk_loop fuel text chunk_size overlap st).
Local Abbreviation body st := (iteration text chunk_size overlap st).

(** The cursor after a pass is never beyond [len text - overlap]. *)
Lemma iteration_start_bound (st : loop_state) :
  start (body st) <= len text - overlap /\
  start (body st) <= start st + chunk_size - overlap.
Proof. unfold iteration; simpl. lia. Qed.

(** The emitted window is appended, nothing else changes. *)
Lemma iteration_chunks (st : loop_state) :
  chunks (body st) =
  chunks st ++
    [slice text (start st) (Z.min (start st + chunk_size) (len text))].
Proof. reflexivity. Qed.

Lemma chunk_loop_O (st : loop_state) :
  run O st = if start st <? len text then None else Some st.
Proof. reflexivity. Qed.

Lemma chunk_loop_S (fuel : nat) (st : loop_state) :
  run (S fuel) st =
  if start st <? len text then
    if start (body st) >=? len text then Some (body st)
    else run fuel (body st)
  else Some st.
Proof. reflexivity. Qed.

(** With a positive overlap, or an overlap that is not below the chunk
    size, a cursor before the end of the text stays before it: the loop
    is never left. *)
Lemma chunk_loop_never_left :
  0 < overlap \/ chunk_size <= overlap ->
  forall fuel st, start st < len text -> run fuel st = None.
Proof.
  intros Hov fuel; induction fuel as [|fuel IH]; intros st Hst.
  - rewrite chunk_loop_O.
    destruct (Z.ltb_spec (start st) (len text)); [reflexivity | lia].
  - rewrite chunk_loop_S.
    destruct (Z.ltb_spec (start st) (len text)); [|lia].
    pose proof (iteration_start_bound st) as [B1 B2].
    assert (Hnext : start (body st) < len text) by lia.
    destruct (Z.geb_spec (start (body st)) (len text)); [lia|].
    apply IH, Hnext.
Qed.

Lemma chunk_text_never_left :
  0 < overlap \/ chunk_size <= overlap ->
  text <> "" ->
  forall fuel, chunk_text fuel text chunk_size overlap = None.
Proof.
  intros Hov Hne fuel. unfold chunk_text.
  rewrite chunk_loop_never_left; auto. simpl.
  destruct text; [congruence | unfold len; simpl; lia].
Qed.

Lemma append_empty (x : string) : (x ++ "")%string = x.
Proof. induction x; simpl; congruence. Qed.

Lemma append_assoc (x y z : string) :
  ((x ++ y) ++ z)%string = (x ++ y ++ z)%string.
Proof. induction x; simpl; congruence. Qed.

(** Without overlap the loop is left, and the chunks are the text cut
    into consecutive pieces. *)
Lemma chunk_loop_without_overlap :
  overlap = 0 -> 0 < chunk_size ->
  forall fuel st,
    0 <= start st <= len text ->
    (Z.to_nat (len text - start st) <= fuel)%nat ->
    exists st',
      run fuel st = Some st' /\
      join (chunks st') =
        (join (chunks st) ++ slice text (start st) (len text))%string /\
      (start st < len text -> chunks st' <> []).
Proof.
  intros Hov Hsize fuel; induction fuel as [|fuel IH]; intros st Hst Hfuel.
  - assert (start st = len text) as E by lia.
    exists st. rewrite chunk_loop_O, E, Z.ltb_irrefl. repeat split.
    + rewrite slice_nothing by (pose proof (len_nonneg text); lia).
      now rewrite append_empty.
    + lia.
  - rewrite chunk_loop_S.
    destruct (Z.ltb_spec (start st) (len text)) as [Hlt|Hge].
    + assert (Hs1 : start (body st)
                    = Z.min (start st + chunk_size) (len text))
        by (unfold iteration; simpl; lia).
      assert (Hc1 : join (chunks (body st)) =
                (join (chunks st)
                   ++ slice text (start st) (start (body st)))%string).
      { rewrite Hs1, iteration_chunks. apply join_snoc. }
      assert (Hne1 : chunks (body st) <> []).
      { rewrite iteration_chunks. destruct (chunks st); discriminate. }
      destruct (Z.geb_spec (start (body st)) (len text)) as [Hend|Hmore].
      * exists (body st). split; [reflexivity|]. split; [|auto].
        rewrite Hc1. do 2 f_equal. lia.
      * destruct (IH (body st)) as (st' & Hrun & Hjoin & Hne); try lia.
        exists st'. split; [exact Hrun|]. split.
        -- rewrite Hjoin, Hc1, append_assoc. f_equal.
           apply slice_split; lia.
        -- intros _. apply Hne. lia.
    + exists st. split; [reflexivity|]. split; [|lia].
      assert (start st = len text) as E by lia. rewrite E.
      rewrite slice_nothing by (pose proof (len_nonneg text); lia).
      now rewrite append_empty.
Qed.

End ChunkerFacts.


Lemma chunk_text_empty (fuel : nat) (chunk_size overlap : Z) :
  Chunker.chunk_text fuel "" chunk_size overlap = Some [""].
Proof. destruct fuel; reflexivity. Qed.

(** X4: without overlap and with a positive chunk size, [chunk_text]
    returns once it is allowed one pass per character, there is at least
    one chunk, and the chunks put together in order are the text. *)
Lemma chunk_text_without_overlap (text : string) (chunk_size : Z) (fuel : nat) :
  0 < chunk_size ->
  (String.length text <= fuel)%nat ->
  exists cs,
    Chunker.chunk_text fuel text chunk_size 0 = Some cs /\
    cs <> [] /\ join cs = text.
Proof.
  intros Hsize Hfuel.
  destruct (chunk_loop_without_overlap text chunk_size 0 eq_refl Hsize fuel
              {| Chunker.start := 0; Chunker.chunks := [] |})
    as (st' & Hrun & Hjoin & Hne).
  - simpl. pose proof (len_nonneg text). lia.
  - simpl. unfold len. lia.
  - unfold Chunker.chunk_text. rewrite Hrun. simpl in Hjoin, Hne.
    rewrite slice_whole in Hjoin.
    destruct (Chunker.chunks st') as [|c cs] eqn:E.
    + exists [text]. repeat split; [discriminate|].
      simpl. apply append_empty.
    + exists (c :: cs). repeat split; [discriminate | exact Hjoin].
Qed.

Lemma chunk_text_short_without_overlap (text : string) (chunk_size : Z)
    (fuel : nat) :
  0 < len text <= chunk_size ->
  Chunker.chunk_text (S fuel) text chunk_size 0 = Some [text].
Proof.
  intros H. unfold Chunker.chunk_text.
  rewrite (chunk_loop_S text chunk_size 0). cbn [Chunker.start].
  destruct (Z.ltb_spec 0 (len text)); [|lia].
  assert (E : Chunker.iteration text chunk_size 0
                {| Chunker.start := 0; Chunker.chunks := [] |}
              = {| Chunker.start := len text; Chunker.chunks := [text] |}).
  { unfold Chunker.iteration; cbn [Chunker.start Chunker.chunks].
    rewrite Z.min_r by lia. rewrite slice_whole. f_equal. lia. }
  rewrite E. cbn [Chunker.start Chunker.chunks].
  destruct (Z.geb_spec (len text) (len text)); [reflexivity | lia].
Qed.

(** The state after the first pass and [n] more, when the first window
    already holds the whole text and the overlap is positive. *)
Lemma passes_on_short_text (text : string) (chunk_size overlap : Z) :
  0 < len text <= chunk_size -> 0 < overlap < chunk_size ->
  forall n,
    Nat.iter (S n) (Chunker.iteration text chunk_size overlap)
      {| Chunker.start := 0; Chunker.chunks := [] |} =
    {| Chunker.start := len text - overlap;
       Chunker.chunks :=
         text :: repeat (slice text (len text - overlap) (len text)) n |}.
Proof.
  intros Hlen Hov n; induction n as [|n IH].
  - simpl. unfold Chunker.iteration; cbn [Chunker.start Chunker.chunks].
    rewrite Z.min_r by lia. rewrite slice_whole. reflexivity.
  - rewrite Nat.iter_succ, IH.
    unfold Chunker.iteration; cbn [Chunker.start Chunker.chunks].
    rewrite Z.min_r by lia. f_equal.
    change (text :: repeat ?x n ++ [?y]) with ((text :: repeat x n) ++ [y]).
    simpl. f_equal. symmetry. apply (repeat_cons n).
Qed.

Example chunk_text_without_overlap_example :
  Chunker.chunk_text 3 "abcde" 2 0 = Some ["ab"; "cd"; "e"].
Proof. reflexivity. Qed.

Example chunk_text_with_overlap_example :
  Chunker.chunk_loop 5 "abcde" 2 1
    {| Chunker.start := 0; Chunker.chunks := [] |} = None /\
  Nat.iter 5 (Chunker.iteration "abcde" 2 1)
    {| Chunker.start := 0; Chunker.chunks := [] |}
  = {| Chunker.start := 4;
       Chunker.chunks := ["ab"; "bc"; "cd"; "de"; "e"] |} /\
  Nat.iter 6 (Chunker.iteration "abcde" 2 1)
    {| Chunker.start := 0; Chunker.chunks := [] |}
  = {| Chunker.start := 4;
       Chunker.chunks := ["ab"; "bc"; "cd"; "de"; "e"; "e"] |}.
Proof. repeat split. Qed.

(** C1: for a non-empty text and [0 < overlap < chunk_size], [chunk_text]
    does not return a chunk sequence: however many passes the loop is
    allowed, it is not left.  The claim promises a non-empty sequence
    that reconstructs the text. *)
Theorem chunk_text_with_overlap_never_returns
    (text : string) (chunk_size overlap : Z) :
  text <> "" -> 0 < chunk_size -> 0 < overlap < chunk_size ->
  forall fuel, Chunker.chunk_text fuel text chunk_size overlap = None.
Proof.
  intros Hne _ Hov fuel. apply chunk_text_never_left; [left; lia | exact Hne].
Qed.

Lemma chunk_text_with_overlap_never_returns_witness :
  0 < 1 < 2 /\ forall fuel, Chunker.chunk_text fuel "abcde" 2 1 = None.
Proof.
  split; [lia|].
  apply (chunk_text_with_overlap_never_returns "abcde" 2 1);
    [discriminate | lia | lia].
Defined.

(** C2: with [0 < overlap < chunk_size], once a window has reached the end
    of the text the loop is not left: the cursor is set to
    [len text - overlap], the next pass leaves it there, and the same
    window is emitted again from the same cursor.  The claim promises
    that the loop ends there and that the cursor always advances. *)
Theorem cursor_stalls_after_last_window
    (text : string) (chunk_size overlap : Z) (st : Chunker.loop_state) :
  0 < overlap < chunk_size ->
  Chunker.start st < len text <= Chunker.start st + chunk_size ->
  let body := Chunker.iteration text chunk_size overlap in
  let tail := slice text (len text - overlap) (len text) in
  Chunker.start (body st) = len text - overlap /\
  (Chunker.start (body st) <? len text) = true /\
  (Chunker.start (body st) >=? len text) = false /\
  Chunker.start (body (body st)) = Chunker.start (body st) /\
  Chunker.chunks (body (body (body st))) =
    Chunker.chunks (body st) ++ [tail; tail] /\
  forall fuel,
    Chunker.chunk_loop fuel text chunk_size overlap st = None.
Proof.
  intros Hov Hst body tail.
  assert (E1 : Chunker.start (body st) = len text - overlap).
  { unfold body, Chunker.iteration; simpl. lia. }
  assert (E2 : Chunker.start (body (body st)) = len text - overlap).
  { unfold body at 1. unfold Chunker.iteration; cbn [Chunker.start].
    fold body. rewrite E1. lia. }
  repeat split.
  - exact E1.
  - apply Z.ltb_lt. lia.
  - destruct (Z.geb_spec (Chunker.start (body st)) (len text)); [lia | auto].
  - congruence.
  - unfold body at 1. rewrite iteration_chunks. fold body.
    unfold body at 1. rewrite iteration_chunks. fold body.
    rewrite E1, E2, <- app_assoc. simpl.
    rewrite !Z.min_r by lia. reflexivity.
  - intros fuel. apply chunk_loop_never_left; lia.
Qed.

Lemma cursor_stalls_after_last_window_witness :
  Chunker.chunks
    (Nat.iter 4 (Chunker.iteration "abc" 2 1)
       {| Chunker.start := 0; Chunker.chunks := [] |})
  = ["ab"; "bc"; "c"; "c"].
Proof.
  pose proof (cursor_stalls_after_last_window "abc" 2 1
                {| Chunker.start := 1; Chunker.chunks := ["ab"] |}
                ltac:(lia) ltac:(unfold len; simpl; lia))
    as (_ & _ & _ & _ & H & _).
  exact H.
Defined.

(** C8: for a non-empty text no longer than the chunk size and
    [0 < overlap < chunk_size], [chunk_text] does not return the single
    chunk the claim promises: after the whole text the loop keeps
    appending the last [overlap] characters, and is never left. *)
Theorem short_text_with_overlap_is_rechunked_forever
    (text : string) (chunk_size overlap : Z) :
  0 < len text <= chunk_size -> 0 < overlap < chunk_size ->
  (forall fuel, Chunker.chunk_text fuel text chunk_size overlap = None) /\
  forall n,
    Nat.iter (S n) (Chunker.iteration text chunk_size overlap)
      {| Chunker.start := 0; Chunker.chunks := [] |} =
    {| Chunker.start := len text - overlap;
       Chunker.chunks :=
         text :: repeat (slice text (len text - overlap) (len text)) n |}.
Proof.
  intros Hlen Hov. split.
  - intros fuel. apply chunk_text_never_left; [left; lia|].
    intros ->. unfold len in Hlen; simpl in Hlen; lia.
  - apply passes_on_short_text; assumption.
Qed.

Lemma short_text_with_overlap_is_rechunked_forever_witness :
  0 < len "a" <= Chunker.default_chunk_size /\
  forall fuel,
    Chunker.chunk_text fuel "a" Chunker.default_chunk_size
      Chunker.default_overlap = None.
Proof.
  split; [unfold len, Chunker.default_chunk_size; simpl; lia|].
  apply (short_text_with_overlap_is_rechunked_forever "a"
           Chunker.default_chunk_size Chunker.default_overlap);
    unfold len, Chunker.default_chunk_size, Chunker.default_overlap;
    simpl; lia.
Defined.




(** ** Resilient JSON extractor *)

Section ExtractorFacts.
Import Extractor.

Lemma get_lt (s : string) :
  forall i c, String.get i s = Some c -> (i < String.length s)%nat.
Proof.
  induction s as [|b s IH]; intros i c H; simpl in *.
  - destruct i; discriminate.
  - destruct i as [|i]; [lia|]. apply IH in H. lia.
Qed.

Lemma prefix_char (c b : ascii) (s : string) :
  prefix (String c "") (String b s) = true <-> b = c.
Proof.
  simpl. destruct (ascii_dec c b) as [->|Hne].
  - split; [reflexivity|]. intros _. destruct s; reflexivity.
  - split; [discriminate | intros ->; congruence].
Qed.

Lemma first_at_here (c : ascii) (s : string) (i : nat) :
  first_at c (String c s) i <-> i = O.
Proof.
  split.
  - intros [_ Hmin]. destruct i as [|i]; [reflexivity|].
    exfalso. apply (Hmin O); [lia | reflexivity].
  - intros ->. split; [reflexivity | intros k Hk; lia].
Qed.

Lemma first_at_later (c b : ascii) (s : string) (i : nat) :
  b <> c ->
  first_at c (String b s) i <-> exists i', i = S i' /\ first_at c s i'.
Proof.
  intros Hne. split.
  - intros [Hget Hmin]. destruct i as [|i]; simpl in Hget; [congruence|].
    exists i. split; [reflexivity|]. split; [exact Hget|].
    intros k Hk. apply (Hmin (S k)). lia.
  - intros (i' & -> & Hget & Hmin). split; [exact Hget|].
    intros [|k] Hk; simpl; [congruence | apply Hmin; lia].
Qed.

(** [find] on a one-character pattern gives the first position of the
    character, and nothing exactly when there is none. *)
Lemma find_first_at (c : ascii) (s : string) (i : nat) :
  find (String c "") s = Some i <-> first_at c s i.
Proof.
  revert i; induction s as [|b s IH]; intros i.
  - simpl. split; [discriminate|]. intros [H _]. destruct i; discriminate.
  - cbn [find]. destruct (prefix (String c "") (String b s)) eqn:P.
    + apply prefix_char in P; subst b. rewrite first_at_here.
      split; congruence.
    + assert (b <> c) as Hne.
      { intros ->. rewrite (proj2 (prefix_char c c s) eq_refl) in P.
        discriminate. }
      rewrite (first_at_later c b s i Hne).
      destruct (find (String c "") s) as [i0|] eqn:F; simpl.
      * split.
        -- intros [= <-]. exists i0. split; [reflexivity | now apply IH].
        -- intros (i' & -> & H). apply IH in H. congruence.
      * split; [discriminate|]. intros (i' & _ & H). apply IH in H.
        discriminate.
Qed.

Lemma last_at_shift (c b : ascii) (s : string) (j : nat) :
  last_at c (String b s) (S j) <-> last_at c s j.
Proof.
  split; intros [Hget Hmax]; (split; [exact Hget|]).
  - intros k Hk. apply (Hmax (S k)). lia.
  - intros [|k] Hk; [lia|]. simpl. apply Hmax. lia.
Qed.

Lemma last_at_head (c b : ascii) (s : string) :
  last_at c (String b s) O <->
  b = c /\ forall k, String.get k s <> Some c.
Proof.
  split.
  - intros [Hget Hmax]. simpl in Hget. split; [congruence|].
    intros k. apply (Hmax (S k)). lia.
  - intros [-> Hnone]. split; [reflexivity|].
    intros [|k] Hk; [lia|]. simpl. apply Hnone.
Qed.

Lemma rfind_last_at (c : ascii) (s : string) :
  (forall j, rfind (String c "") s = Some j <-> last_at c s j) /\
  (rfind (String c "") s = None <-> forall k, String.get k s <> Some c).
Proof.
  induction s as [|b s [IHsome IHnone]].
  - simpl. split.
    + intros j. split; [discriminate|]. intros [H _]. destruct j; discriminate.
    + split; [|reflexivity]. intros _ k. destruct k; discriminate.
  - cbn [rfind]. destruct (rfind (String c "") s) as [j0|] eqn:R.
    + assert (L0 : last_at c s j0) by now apply IHsome.
      split.
      * intros j. split.
        -- intros [= <-]. now apply last_at_shift.
        -- intros H. destruct j as [|j].
           ++ apply last_at_head in H. destruct H as [_ Hnone].
              destruct L0 as [Hget _]. now apply Hnone in Hget.
           ++ apply last_at_shift, IHsome in H. congruence.
      * split; [discriminate|]. intros Hnone. destruct L0 as [Hget _].
        exfalso. apply (Hnone (S j0)). exact Hget.
    + assert (Hnone : forall k, String.get k s <> Some c) by now apply IHnone.
      destruct (prefix (String c "") (String b s)) eqn:P.
      * apply prefix_char in P; subst b. split.
        -- intros j. split.
           ++ intros [= <-]. apply last_at_head. auto.
           ++ intros H. destruct j as [|j]; [reflexivity|].
              apply last_at_shift in H. destruct H as [Hget _].
              now apply Hnone in Hget.
        -- split; [discriminate|]. intros H. exfalso. apply (H O).
           reflexivity.
      * assert (b <> c) as Hne.
        { intros ->. rewrite (proj2 (prefix_char c c s) eq_refl) in P.
          discriminate. }
        split.
        -- intros j. split; [discriminate|]. intros H.
           destruct j as [|j].
           ++ apply last_at_head in H. tauto.
           ++ apply last_at_shift in H. destruct H as [Hget _].
              now apply Hnone in Hget.
        -- split; [|reflexivity]. intros _ [|k]; simpl; [congruence|].
           apply Hnone.
Qed.

(** The slice the code takes is the inclusive slice of the words. *)
Lemma slice_inclusive (s : string) (i j : nat) :
  (i < String.length s)%nat -> (j < String.length s)%nat ->
  slice s (Z.of_nat i) (Z.of_nat j + 1) = inclusive s i j.
Proof.
  intros Hi Hj. unfold slice, adjust, inclusive, len.
  destruct (Z.ltb_spec (Z.of_nat i) 0), (Z.ltb_spec (Z.of_nat j + 1) 0);
    try lia.
  rewrite !Z.min_l by lia. f_equal; lia.
Qed.

Variable loads : string -> result value.

(** A fallback succeeds with [v] exactly when the slice from the first
    opening character to the last closing one exists and parses to [v]. *)
Lemma parse_between_recovers (s : string) (o c : ascii) (v : value) :
  parse_between loads s (String o "") (String c "") = Ok v <->
  recovers loads o c s v.
Proof.
  unfold parse_between, index, rindex, recovers. split.
  - destruct (find (String o "") s) as [i|] eqn:F; simpl; [|discriminate].
    destruct (rfind (String c "") s) as [j|] eqn:R; simpl; [|discriminate].
    apply find_first_at in F. apply (rfind_last_at c s) in R.
    intros H. exists i, j. repeat split; try (apply F || apply R).
    rewrite <- slice_inclusive; [exact H | |].
    + destruct F as [G _]. eapply get_lt, G.
    + destruct R as [G _]. eapply get_lt, G.
  - intros (i & j & Hi & Hj & H).
    pose proof (get_lt _ _ _ (proj1 Hi)). pose proof (get_lt _ _ _ (proj1 Hj)).
    apply find_first_at in Hi. apply (rfind_last_at c s) in Hj.
    rewrite Hi, Hj. simpl. now rewrite slice_inclusive.
Qed.

Lemma parse_between_fails (s : string) (o c : ascii) :
  (forall v, ~ recovers loads o c s v) ->
  fails (parse_between loads s (String o "") (String c "")).
Proof.
  intros Hno.
  destruct (parse_between loads s (String o "") (String c "")) as [v|e] eqn:P.
  - apply parse_between_recovers in P. now apply Hno in P.
  - now exists e.
Qed.

(** C5: [try_parse_json] tries, in this order and stopping at the first
    success, the whole string, the slice from the first opening brace to
    the last closing brace, and the slice from the first opening bracket
    to the last closing bracket, and returns [None] when all three fail;
    so a string none of whose substrings parses gives [None]. *)
Theorem try_parse_json_priority (s : string) :
  (forall v, loads s = Ok v -> try_parse_json loads s = v) /\
  (fails (loads s) ->
   forall v, recovers loads "{" "}" s v -> try_parse_json loads s = v) /\
  (fails (loads s) -> (forall v, ~ recovers loads "{" "}" s v) ->
   forall v, recovers loads "[" "]" s v -> try_parse_json loads s = v) /\
  (fails (loads s) -> (forall v, ~ recovers loads "{" "}" s v) ->
   (forall v, ~ recovers loads "[" "]" s v) ->
   try_parse_json loads s = PyNone) /\
  ((forall a n, fails (loads (substring a n s))) ->
   try_parse_json loads s = PyNone).
Proof.
  assert (C4 : fails (loads s) -> (forall v, ~ recovers loads "{" "}" s v) ->
               (forall v, ~ recovers loads "[" "]" s v) ->
               try_parse_json loads s = PyNone).
  { intros [e He] Hb Hk. unfold try_parse_json. rewrite He.
    destruct (parse_between_fails s "{" "}" Hb) as [e1 ->].
    destruct (parse_between_fails s "[" "]" Hk) as [e2 ->]. reflexivity. }
  repeat split.
  - intros v H. unfold try_parse_json. now rewrite H.
  - intros [e He] v Hb. unfold try_parse_json. rewrite He.
    apply parse_between_recovers in Hb. now rewrite Hb.
  - intros [e He] Hb v Hk. unfold try_parse_json. rewrite He.
    destruct (parse_between_fails s "{" "}" Hb) as [e1 ->].
    apply parse_between_recovers in Hk. now rewrite Hk.
  - exact C4.
  - intros Hall. apply C4.
    + rewrite <- (substring_all s). apply Hall.
    + intros v (i & j & _ & _ & H). destruct (Hall i (S j - i)%nat) as [e He].
      unfold inclusive in H. congruence.
    + intros v (i & j & _ & _ & H). destruct (Hall i (S j - i)%nat) as [e He].
      unfold inclusive in H. congruence.
Qed.

End ExtractorFacts.

Lemma try_parse_json_priority_witness :
  Extractor.try_parse_json Extractor.sample_loads "ok {} ." = PyDict [].
Proof.
  apply (proj1 (proj2
           (try_parse_json_priority Extractor.sample_loads "ok {} ."))).
  - eexists. reflexivity.
  - exists 3%nat, 4%nat. split; [split | split; [split|]]; try reflexivity.
    + intros [|[|[|k]]] Hk; simpl; solve [discriminate | lia].
    + intros [|[|[|[|[|[|[|[|k]]]]]]]] Hk; simpl;
        solve [discriminate | lia].
Defined.

Example try_parse_json_not_json :
  forall loads,
    Extractor.fails (loads "not json at all") ->
    Extractor.try_parse_json loads "not json at all" = PyNone.
Proof.
  intros loads [e He]. unfold Extractor.try_parse_json. now rewrite He.
Qed.

(** ** Aggregator *)

Section AggregatorFacts.
Import Aggregator.

Lemma aggregate_step_contribution (all_parsed : list value) (v : value) :
  aggregate_step all_parsed v = all_parsed ++ contribution v.
Proof. destruct v; simpl; now rewrite ?app_nil_r. Qed.

Lemma fold_aggregate_step (vs : list value) :
  forall acc,
    fold_left aggregate_step vs acc = acc ++ List.concat (map contribution vs).
Proof.
  induction vs as [|v vs IH]; intros acc; simpl.
  - now rewrite app_nil_r.
  - now rewrite IH, aggregate_step_contribution, app_assoc.
Qed.

(** C6: the record set is the contributions of the recovered values one
    after the other, in the order of the chunks: an array contributes its
    elements in their order, an object itself, [None] nothing.  Nothing is
    removed, so a value met twice contributes twice. *)
Theorem aggregate_in_chunk_order (vs ws : list value) :
  aggregate vs = List.concat (map contribution vs) /\
  aggregate (vs ++ ws) = aggregate vs ++ aggregate ws /\
  (forall items, contribution (PyList items) = items) /\
  (forall o, contribution (PyDict o) = [PyDict o]) /\
  contribution PyNone = [] /\
  List.length (aggregate vs) =
    list_sum (map (fun v => List.length (contribution v)) vs).
Proof.
  unfold aggregate. rewrite !fold_aggregate_step. simpl.
  repeat split.
  - now rewrite map_app, concat_app.
  - induction vs as [|v vs IH]; simpl; [reflexivity|].
    now rewrite length_app, IH.
Qed.

Example aggregate_example :
  aggregate
    [ PyList [PyDict [("a", PyInt 1)]; PyDict [("a", PyInt 2)]];
      PyNone;
      PyDict [("b", PyInt 3)] ]
  = [PyDict [("a", PyInt 1)]; PyDict [("a", PyInt 2)];
     PyDict [("b", PyInt 3)]].
Proof. reflexivity. Qed.

(** C9: a reply that parses to a scalar is returned by [try_parse_json] as
    that scalar, and the loop of [main] then leaves the record set as it
    was, as it does for [None]. *)
Theorem scalar_is_recovered_then_dropped
    (loads : string -> result value) (s : string) (v : value) :
  loads s = Ok v -> scalar v ->
  Extractor.try_parse_json loads s = v /\ v <> PyNone /\
  forall all_parsed,
    aggregate_step all_parsed v = all_parsed /\
    aggregate_step all_parsed v = aggregate_step all_parsed PyNone.
Proof.
  intros Hs Hv. unfold Extractor.try_parse_json. rewrite Hs.
  destruct v; simpl in Hv; try contradiction;
    (split; [reflexivity | split; [discriminate | intros; split; reflexivity]]).
Qed.

Lemma scalar_is_recovered_then_dropped_witness :
  Extractor.try_parse_json Extractor.sample_loads "5" = PyInt 5 /\
  PyInt 5 <> PyNone /\
  forall all_parsed,
    aggregate_step all_parsed (PyInt 5) = all_parsed /\
    aggregate_step all_parsed (PyInt 5) = aggregate_step all_parsed PyNone.
Proof.
  apply (scalar_is_recovered_then_dropped Extractor.sample_loads "5" (PyInt 5)).
  - reflexivity.
  - simpl. exact I.
Defined.

End AggregatorFacts.

(** ** Table materializer *)

Section MaterializerFacts.
Import Materializer.

Lemma first_seen_In (keys : list string) (k : string) :
  In k (first_seen keys) <-> In k keys.
Proof.
  induction keys as [|a keys IH]; simpl; [tauto|].
  rewrite filter_In, IH. destruct (String.eqb_spec k a) as [->|Hne]; simpl.
  - tauto.
  - split; [tauto|]. intros [E|H]; [now left | right; auto].
Qed.

Lemma first_seen_NoDup (keys : list string) : NoDup (first_seen keys).
Proof.
  induction keys as [|a keys IH]; simpl; constructor.
  - rewrite filter_In, String.eqb_refl. simpl. intros [_ H]. discriminate.
  - now apply NoDup_filter.
Qed.

(** A key met for the first time after the keys [seen] comes right after
    the columns of [seen]. *)
Lemma first_seen_order (seen later : list string) (k : string) :
  ~ In k seen ->
  exists cols,
    first_seen (seen ++ k :: later) = first_seen seen ++ k :: cols.
Proof.
  induction seen as [|a seen IH]; intros Hnew; simpl.
  - eexists. reflexivity.
  - destruct IH as [cols E]; [simpl in Hnew; tauto|].
    rewrite E, filter_app. simpl.
    destruct (String.eqb_spec k a) as [->|Hne]; simpl.
    + exfalso. apply Hnew. now left.
    + eexists. reflexivity.
Qed.

Lemma cell_of_present (record : list (string * value)) (k : string) :
  In k (keys_of record) ->
  exists v, In (k, v) record /\ cell_of record k = Cell v.
Proof.
  intros Hk. unfold cell_of, lookup.
  destruct (List.find (fun kv => (fst kv =? k)%string) record)
    as [[k' v]|] eqn:F.
  - apply find_some in F. destruct F as [Hin Heq]. simpl in Heq.
    apply String.eqb_eq in Heq. subst k'. now exists v.
  - exfalso. unfold keys_of in Hk. apply in_map_iff in Hk.
    destruct Hk as ([k' v] & E & Hin). simpl in E; subst k'.
    apply (find_none _ _ F) in Hin. simpl in Hin.
    now rewrite String.eqb_refl in Hin.
Qed.

Lemma cell_of_missing (record : list (string * value)) (k : string) :
  cell_of record k = Empty <-> ~ In k (keys_of record).
Proof.
  split.
  - intros E Hk. apply cell_of_present in Hk. destruct Hk as (v & _ & C).
    congruence.
  - intros Hk. unfold cell_of, lookup.
    destruct (List.find (fun kv => (fst kv =? k)%string) record)
      as [[k' v]|] eqn:F; [|reflexivity].
    apply find_some in F. destruct F as [Hin Heq]. simpl in Heq.
    apply String.eqb_eq in Heq. subst k'. exfalso. apply Hk.
    unfold keys_of. apply in_map_iff. now exists (k, v).
Qed.

Variable pd_DataFrame : value -> result DataFrame.
Variable suffix : string -> string.
Variable fs : file_system.

Local Abbreviation save := (save_structured pd_DataFrame suffix fs).
Local Abbreviation excel out :=
  (existsb (String.eqb (lower (suffix out))) [".xlsx"; ".xls"]).

(** When [save_structured] returns: the table was built, the directory
    made and the one file written, in that order. *)
Lemma save_structured_returns (v : value) (out : string) (evs : list event) :
  save v out = Ok evs <->
  exists df,
    build_frame pd_DataFrame v = Ok df /\ mkdir fs out = Ok tt /\
    ((excel out = true /\ to_excel fs df out = Ok tt /\
      evs = [Mkdir out; ToExcel out df]) \/
     (excel out = false /\ to_csv fs df out = Ok tt /\
      evs = [Mkdir out; ToCsv out df])).
Proof.
  unfold save_structured. split.
  - destruct (build_frame pd_DataFrame v) as [df|e]; cbn [bind];
      [|discriminate].
    destruct (mkdir fs out) as [[]|e]; cbn [bind]; [|discriminate].
    destruct (excel out).
    + destruct (to_excel fs df out) as [u|e] eqn:E; cbn [bind];
        [destruct u|discriminate].
      intros [= <-]. exists df. auto 8.
    + destruct (to_csv fs df out) as [u|e] eqn:E; cbn [bind];
        [destruct u|discriminate].
      intros [= <-]. exists df. auto 8.
  - intros (df & Hb & Hm & H). rewrite Hb. cbn [bind]. rewrite Hm. cbn [bind].
    destruct H as [(-> & Hx & ->)|(-> & Hx & ->)]; now rewrite Hx.
Qed.

(** When [save_structured] raises: the exception is the one of the first
    step that failed. *)
Lemma save_structured_raises (v : value) (out : string) (e : exn) :
  save v out = Raise e <->
  build_frame pd_DataFrame v = Raise e \/
  exists df,
    build_frame pd_DataFrame v = Ok df /\
    (mkdir fs out = Raise e \/
     (mkdir fs out = Ok tt /\
      ((excel out = true /\ to_excel fs df out = Raise e) \/
       (excel out = false /\ to_csv fs df out = Raise e)))).
Proof.
  unfold save_structured.
  destruct (build_frame pd_DataFrame v) as [df|e0] eqn:B; cbn [bind].
  2: { split; [intros [= ->]; now left|].
       intros [H|(df' & H & _)]; congruence. }
  destruct (mkdir fs out) as [u|e1] eqn:M; cbn [bind]; [destruct u|].
  2: { split; [intros [= ->]; right; exists df; auto|].
       intros [H|(df' & _ & [H|(H & _)])]; congruence. }
  destruct (excel out) eqn:X.
  - destruct (to_excel fs df out) as [u|e2] eqn:E; cbn [bind];
      [destruct u|]; split.
    + discriminate.
    + intros [H|(df' & Hd & H)]; [congruence|]. injection Hd as <-.
      destruct H as [H|(_ & [(_ & H)|(H & _)])]; congruence.
    + intros [= ->]. right. exists df. auto 8.
    + intros [H|(df' & Hd & H)]; [congruence|]. injection Hd as <-.
      destruct H as [H|(_ & [(_ & H)|(H & _)])]; congruence.
  - destruct (to_csv fs df out) as [u|e2] eqn:E; cbn [bind];
      [destruct u|]; split.
    + discriminate.
    + intros [H|(df' & Hd & H)]; [congruence|]. injection Hd as <-.
      destruct H as [H|(_ & [(H & _)|(_ & H)])]; congruence.
    + intros [= ->]. right. exists df. auto 8.
    + intros [H|(df' & Hd & H)]; [congruence|]. injection Hd as <-.
      destruct H as [H|(_ & [(H & _)|(_ & H)])]; congruence.
Qed.

(** C4, as the code has it: an empty record set is not an error.  [main]
    does not call [save_structured] for it, touches no file and prints a
    warning.  [save_structured] raises its own error for a value that is
    neither a list nor a dict; a list is handed as it is to the table
    constructor, and an error of the constructor is the error of the
    call. *)
Theorem empty_record_set_warns (out : string) :
  main_save pd_DataFrame suffix fs [] out = Ok [Print NoValidJson] /\
  (forall v, is_list v = false -> is_dict v = false ->
     save v out = Raise (RuntimeError not_list_dict)) /\
  (forall records e, pd_DataFrame (PyList records) = Raise e ->
     save (PyList records) out = Raise e).
Proof.
  repeat split.
  - intros v Hl Hd. apply save_structured_raises. left.
    destruct v; simpl in *; congruence.
  - intros records e H. apply save_structured_raises. now left.
Qed.

(** C7: for a non-empty list of row objects, given that the table
    constructor builds the table of the specification from it,
    [save_structured] writes that table.  Its columns are the keys of the
    records, each once, in the order in which they are first met; it has
    one row per record, in order; a row holds, under each column, the
    record's value for that key, or an empty cell when the record has no
    such key. *)
Theorem rows_table_has_union_columns
    (records : list (list (string * value))) (out : string) :
  records <> [] ->
  pd_DataFrame (PyList (map PyDict records)) = Ok (frame_of_rows records) ->
  let df := frame_of_rows records in
  let keys := List.concat (map keys_of records) in
  (mkdir fs out = Ok tt -> to_excel fs df out = Ok tt ->
   to_csv fs df out = Ok tt ->
   exists ev, save (PyList (map PyDict records)) out = Ok [Mkdir out; ev] /\
              (ev = ToExcel out df \/ ev = ToCsv out df)) /\
  (forall evs, save (PyList (map PyDict records)) out = Ok evs ->
     evs = [Mkdir out; ToExcel out df] \/
     evs = [Mkdir out; ToCsv out df]) /\
  NoDup (columns df) /\
  (forall k, In k (columns df) <->
             exists r, In r records /\ In k (keys_of r)) /\
  (forall seen k later, keys = seen ++ k :: later -> ~ In k seen ->
     exists cols, columns df = first_seen seen ++ k :: cols) /\
  List.length (rows df) = List.length records /\
  (forall i r, nth_error records i = Some r ->
     nth_error (rows df) i = Some (map (cell_of r) (columns df))) /\
  (forall r k, In k (keys_of r) ->
     exists v, In (k, v) r /\ cell_of r k = Cell v) /\
  (forall r k, ~ In k (keys_of r) -> cell_of r k = Empty).
Proof.
  intros _ Hpd df keys. repeat split.
  - intros Hm He Hc. destruct (excel out) eqn:X; eexists;
      (split; [apply save_structured_returns; exists df;
               split; [exact Hpd | split; [exact Hm|]]|]).
    + left. split; [exact X | split; [exact He | reflexivity]].
    + now left.
    + right. split; [exact X | split; [exact Hc | reflexivity]].
    + now right.
  - intros evs H. apply save_structured_returns in H.
    destruct H as (df' & Hb & _ & [(_ & _ & ->)|(_ & _ & ->)]);
      cbn [build_frame] in Hb; rewrite Hpd in Hb; injection Hb as <-; auto.
  - apply first_seen_NoDup.
  - unfold df; simpl. rewrite first_seen_In, in_concat.
    intros (ks & Hks & Hk). apply in_map_iff in Hks.
    destruct Hks as (r & <- & Hr). now exists r.
  - unfold df; simpl. rewrite first_seen_In, in_concat.
    intros (r & Hr & Hk). exists (keys_of r). split; [|exact Hk].
    apply in_map_iff. now exists r.
  - intros seen k later E Hnew. unfold df; simpl. fold keys. rewrite E.
    now apply first_seen_order.
  - unfold df; simpl. apply length_map.
  - intros i r Hr. unfold df; simpl.
    now rewrite nth_error_map, Hr.
  - intros r k. apply cell_of_present.
  - intros r k. apply cell_of_missing.
Qed.

End MaterializerFacts.

Lemma rows_table_has_union_columns_witness :
  Materializer.frame_of_rows
    [ [("a", PyInt 1); ("b", PyInt 2)]; [("a", PyInt 3)] ]
  = {| Materializer.columns := ["a"; "b"];
       Materializer.rows :=
         [ [Materializer.Cell (PyInt 1); Materializer.Cell (PyInt 2)];
           [Materializer.Cell (PyInt 3); Materializer.Empty] ] |} /\
  exists ev,
    Materializer.save_structured Materializer.sample_DataFrame
      Materializer.sample_suffix Materializer.sample_fs
      (PyList [ PyDict [("a", PyInt 1); ("b", PyInt 2)];
                PyDict [("a", PyInt 3)] ])
      "out/table.csv"
    = Ok [Materializer.Mkdir "out/table.csv"; ev].
Proof.
  split; [reflexivity|].
  destruct (rows_table_has_union_columns Materializer.sample_DataFrame
              Materializer.sample_suffix Materializer.sample_fs
              [ [("a", PyInt 1); ("b", PyInt 2)]; [("a", PyInt 3)] ]
              "out/table.csv" ltac:(discriminate) eq_refl)
    as (Hok & _).
  destruct (Hok eq_refl eq_refl eq_refl) as (ev & H & _).
  exists ev. exact H.
Defined.

(** C4, as the claim has it, fails: the run on an empty record set ends
    with a warning, not with an error. *)
Lemma empty_record_set_is_no_error :
  Materializer.main_save Materializer.sample_DataFrame
    Materializer.sample_suffix Materializer.sample_fs [] "output.csv"
  = Ok [Materializer.Print Materializer.NoValidJson].
Proof. reflexivity. Qed.

(** ** Dispatch on the file extension *)

Section ExtensionFacts.
Import TextSource Materializer.

Lemma lower_upper_char (c : ascii) : lower_char (upper_char c) = lower_char c.
Proof. destruct c as [[] [] [] [] [] [] [] []]; reflexivity. Qed.

(** Lowering a spelling gives what lowering the extension itself gives. *)
Lemma case_variant_lower (canon s : string) :
  case_variant canon s -> lower s = lower canon.
Proof.
  induction 1 as [|c canon s _ IH|c canon s _ IH]; simpl.
  - reflexivity.
  - now rewrite IH.
  - now rewrite IH, lower_upper_char.
Qed.

Variable suffix : string -> string.
Variable extract_pdf : string -> result string.
Variable extract_docx : string -> result string.
Variable convert_doc_to_docx : string -> result string.
Variable pd_DataFrame : value -> result DataFrame.
Variable fs : file_system.

Local Abbreviation read :=
  (extract_text suffix extract_pdf extract_docx convert_doc_to_docx).
Local Abbreviation save := (save_structured pd_DataFrame suffix fs).

(** C10: an input whose extension spells [.pdf], [.docx] or [.doc] in any
    mix of cases goes to the reader of that format, and an output whose
    extension spells [.xlsx] or [.xls] in any mix of cases is written as a
    spreadsheet, never as CSV: the table that was built is written with
    [to_excel]; the call returns when the directory can be made and
    [to_excel] succeeds, whatever [to_csv] would do, and fails with the
    error of [to_excel] when that fails. *)
Theorem extension_dispatch_ignores_case (file_path out : string) :
  (case_variant ".pdf" (suffix file_path) ->
   read file_path = extract_pdf file_path) /\
  (case_variant ".docx" (suffix file_path) ->
   read file_path = extract_docx file_path) /\
  (case_variant ".doc" (suffix file_path) ->
   read file_path =
     (converted <- convert_doc_to_docx file_path ;; extract_docx converted)) /\
  (case_variant ".xlsx" (suffix out) \/ case_variant ".xls" (suffix out) ->
   forall v,
     (forall evs, save v out = Ok evs ->
        exists df, build_frame pd_DataFrame v = Ok df /\
                   evs = [Mkdir out; ToExcel out df]) /\
     (forall df, build_frame pd_DataFrame v = Ok df ->
        mkdir fs out = Ok tt -> to_excel fs df out = Ok tt ->
        save v out = Ok [Mkdir out; ToExcel out df]) /\
     (forall df e, build_frame pd_DataFrame v = Ok df ->
        mkdir fs out = Ok tt -> to_excel fs df out = Raise e ->
        save v out = Raise e)).
Proof.
  unfold extract_text. split; [|split; [|split]].
  - intros H. apply case_variant_lower in H. now rewrite H.
  - intros H. apply case_variant_lower in H. now rewrite H.
  - intros H. apply case_variant_lower in H. now rewrite H.
  - intros H v.
    assert (E : existsb (String.eqb (lower (suffix out))) [".xlsx"; ".xls"]
                = true).
    { destruct H as [H|H]; apply case_variant_lower in H; now rewrite H. }
    split; [|split].
    + intros evs Hs. apply save_structured_returns in Hs.
      destruct Hs as (df & Hb & _ & [(_ & _ & ->)|(X & _)]);
        [now exists df | congruence].
    + intros df Hb Hm He. apply save_structured_returns. exists df. auto 8.
    + intros df e Hb Hm He. apply save_structured_raises. right.
      exists df. auto 8.
Qed.

End ExtensionFacts.

Lemma extension_dispatch_ignores_case_witness :
  TextSource.extract_text Materializer.sample_suffix
    (fun p => Ok ("pdf text of " ++ p)%string)
    (fun p => Ok ("docx text of " ++ p)%string)
    (fun p => Ok (p ++ "x")%string)
    "scan.PdF" = Ok "pdf text of scan.PdF" /\
  Materializer.save_structured Materializer.sample_DataFrame
    Materializer.sample_suffix
    {| Materializer.mkdir := fun _ => Ok tt;
       Materializer.to_excel := fun _ _ => Ok tt;
       Materializer.to_csv := fun _ _ => Raise (OSError "disk full") |}
    (PyList [PyDict [("a", PyInt 1)]]) "out.XLSX"
  = Ok [ Materializer.Mkdir "out.XLSX";
         Materializer.ToExcel "out.XLSX"
           {| Materializer.columns := ["a"];
              Materializer.rows := [[Materializer.Cell (PyInt 1)]] |} ].
Proof.
  pose proof (extension_dispatch_ignores_case Materializer.sample_suffix
                (fun p => Ok ("pdf text of " ++ p)%string)
                (fun p => Ok ("docx text of " ++ p)%string)
                (fun p => Ok (p ++ "x")%string)
                Materializer.sample_DataFrame
                {| Materializer.mkdir := fun _ => Ok tt;
                   Materializer.to_excel := fun _ _ => Ok tt;
                   Materializer.to_csv :=
                     fun _ _ => Raise (OSError "disk full") |}
                "scan.PdF" "out.XLSX") as (Hpdf & _ & _ & Hxlsx).
  split.
  - apply Hpdf. change (Materializer.sample_suffix "scan.PdF") with ".PdF".
    apply TextSource.cv_same, (TextSource.cv_upper "p"),
      TextSource.cv_same, (TextSource.cv_upper "f"), TextSource.cv_nil.
  - apply Hxlsx; try reflexivity. left.
    change (Materializer.sample_suffix "out.XLSX") with ".XLSX".
    apply TextSource.cv_same, (TextSource.cv_upper "x"),
      (TextSource.cv_upper "l"), (TextSource.cv_upper "s"),
      (TextSource.cv_upper "x"), TextSource.cv_nil.
Defined.

Example spreadsheet_for_upper_case_extension :
  Materializer.save_structured Materializer.sample_DataFrame
    Materializer.sample_suffix Materializer.sample_fs
    (PyList [PyDict [("a", PyInt 1)]]) "out.XLSX"
  = Ok [ Materializer.Mkdir "out.XLSX";
         Materializer.ToExcel "out.XLSX"
           {| Materializer.columns := ["a"];
              Materializer.rows := [[Materializer.Cell (PyInt 1)]] |} ].
Proof. reflexivity. Qed.

(** ** The run as a whole *)

(** [main] passes the default overlap of 500, so once the document has
    been read and is not empty the chunking never ends, whatever the chunk
    size. *)
Lemma main_never_leaves_chunking
    suffix extract_pdf extract_docx convert_doc_to_docx run_ollama_with_cmd
    loads pd_DataFrame fs (a : Pipeline.args) (doc_text : string) :
  TextSource.extract_text suffix extract_pdf extract_docx convert_doc_to_docx
    (Pipeline.input a) = Ok doc_text ->
  doc_text <> "" ->
  forall fuel,
    Pipeline.main suffix extract_pdf extract_docx convert_doc_to_docx
      run_ollama_with_cmd loads pd_DataFrame fs fuel a = None.
Proof.
  intros Hread Hne fuel. unfold Pipeline.main. rewrite Hread.
  rewrite chunk_text_never_left; [reflexivity | | exact Hne].
  left. unfold Chunker.default_overlap. lia.
Qed.

(** * Further properties of the code *)

(** ** When [chunk_text] returns, and what *)

Section ChunkerWindows.
Import Chunker Windows.

Variable text : string.
Variables chunk_size overlap : Z.

Lemma ceil_div_spec (a b k : Z) :
  0 < b -> k < ceil_div a b <-> k * b < a.
Proof.
  intros Hb. unfold ceil_div. split; intros H.
  - assert (k + 1 <= (a + b - 1) / b) as H1 by lia.
    pose proof (Z.mul_div_le (a + b - 1) b Hb). nia.
  - assert (k + 1 <= (a + b - 1) / b); [|lia].
    apply Z.div_le_lower_bound; [exact Hb | nia].
Qed.

Local Abbreviation stride := (chunk_size - overlap).
Local Abbreviation passes := (Z.to_nat (ceil_div (len text) stride)).

Lemma passes_spec (k : nat) :
  0 < stride -> (k < passes)%nat <-> Z.of_nat k * stride < len text.
Proof.
  intros Hs. rewrite <- ceil_div_spec by exact Hs.
  pose proof (len_nonneg text).
  destruct (Z.le_gt_cases (ceil_div (len text) stride) 0) as [Hle|Hgt]; lia.
Qed.

(** The loop from the [k]-th stride on appends the windows [k], [k+1],
    ... up to the last one that starts inside the text. *)
Lemma chunk_loop_windows :
  overlap <= 0 -> overlap < chunk_size ->
  forall fuel k cs,
    Z.of_nat k * stride < len text ->
    (passes - k <= fuel)%nat ->
    exists s',
      chunk_loop fuel text chunk_size overlap
        {| start := Z.of_nat k * stride; chunks := cs |} =
      Some {| start := s';
              chunks := cs ++ map (window text chunk_size overlap)
                                  (seq k (passes - k)) |}.
Proof.
  intros Hov Hsize fuel; induction fuel as [|fuel IH]; intros k cs Hk Hfuel.
  - apply passes_spec in Hk; lia.
  - rewrite chunk_loop_S. cbn [start chunks].
    destruct (Z.ltb_spec (Z.of_nat k * stride) (len text)) as [_|]; [|lia].
    assert (Hlt : (k < passes)%nat) by (apply passes_spec; lia).
    unfold iteration at 1 2. cbn [start chunks].
    fold (window text chunk_size overlap k).
    destruct (Z.geb_spec
                (Z.min (Z.of_nat k * stride + chunk_size) (len text) - overlap)
                (len text)) as [Hend|Hmore].
    + assert (~ (S k < passes)%nat) as Hlast.
      { rewrite passes_spec by lia. lia. }
      replace (passes - k)%nat with 1%nat by lia.
      eexists. reflexivity.
    + assert (E : Z.min (Z.of_nat k * stride + chunk_size) (len text) - overlap
                  = Z.of_nat (S k) * stride) by lia.
      unfold iteration. cbn [start chunks].
      fold (window text chunk_size overlap k). rewrite E.
      destruct (IH (S k) (cs ++ [window text chunk_size overlap k]))
        as [s' Hrun]; [lia | lia |].
      exists s'. rewrite Hrun. do 2 f_equal.
      rewrite <- app_assoc. f_equal.
      replace (passes - k)%nat with (S (passes - S k)) by lia.
      reflexivity.
Qed.

(** The whole call, from the loop. *)
Lemma chunk_text_runs_windows (fuel : nat) :
  text <> "" -> overlap <= 0 -> overlap < chunk_size ->
  (passes <= fuel)%nat ->
  chunk_text fuel text chunk_size overlap =
  Some (windows text chunk_size overlap passes) /\ (0 < passes)%nat.
Proof.
  intros Hne Hov Hsize Hfuel.
  assert (Hlen : 0 < len text).
  { destruct text; [congruence | unfold len; simpl; lia]. }
  assert (Hpos : (0 < passes)%nat) by (apply passes_spec; simpl; lia).
  split; [|exact Hpos].
  destruct (chunk_loop_windows Hov Hsize fuel 0 []) as [s' Hrun];
    [simpl; lia | lia |].
  unfold chunk_text. change (Z.of_nat 0 * stride) with 0 in Hrun.
  rewrite Hrun. cbn [chunks]. rewrite Nat.sub_0_r, app_nil_l.
  unfold windows. destruct passes; [lia | reflexivity].
Qed.

(** X2: for a non-empty text and an overlap that is zero or negative and
    below the chunk size, [chunk_text] returns as soon as it is allowed
    one pass per stride of [chunk_size - overlap] characters, and its
    chunks are the windows at the successive strides: the [k]-th chunk is
    [text[k*stride : min(k*stride + chunk_size, len(text))]]. *)
Theorem chunk_text_windows (fuel : nat) :
  text <> "" -> overlap <= 0 -> overlap < chunk_size ->
  (passes <= fuel)%nat ->
  chunk_text fuel text chunk_size overlap =
  Some (windows text chunk_size overlap passes) /\ (0 < passes)%nat.
Proof. apply chunk_text_runs_windows. Qed.

(** X1: [chunk_text] returns, given enough passes, exactly when the text
    is empty or the overlap is at most zero and below the chunk size.  For
    every other input, the default overlap of 500 on a non-empty text
    among them, no number of passes is enough. *)
Theorem chunk_text_returns_iff :
  (exists fuel cs, chunk_text fuel text chunk_size overlap = Some cs) <->
  text = "" \/ (overlap <= 0 /\ overlap < chunk_size).
Proof.
  split.
  - intros (fuel & cs & H).
    destruct (string_dec text "") as [E|Hne]; [now left | right].
    destruct (Z.le_gt_cases overlap 0) as [Hov|Hov];
      [destruct (Z.lt_ge_cases overlap chunk_size) as [Hs|Hs]|].
    + lia.
    + rewrite chunk_text_never_left in H; [discriminate | right; lia | auto].
    + rewrite chunk_text_never_left in H; [discriminate | left; lia | auto].
  - intros [->|[Hov Hs]].
    + exists O, [""]. apply chunk_text_empty.
    + destruct (string_dec text "") as [->|Hne].
      * exists O, [""]. apply chunk_text_empty.
      * exists passes, (windows text chunk_size overlap passes).
        now apply chunk_text_runs_windows.
Qed.

End ChunkerWindows.

Lemma substring_length (s : string) :
  forall a n,
    (a + n <= String.length s)%nat -> String.length (substring a n s) = n.
Proof.
  induction s as [|c s IH]; intros a n H; simpl in H.
  - assert (a = O) by lia. assert (n = O) by lia. subst. reflexivity.
  - destruct a as [|a].
    + destruct n as [|n]; simpl; [reflexivity|]. f_equal. apply IH. lia.
    + simpl. apply IH. lia.
Qed.

Lemma slice_len (s : string) (a b : Z) :
  0 <= a <= b -> b <= len s -> len (slice s a b) = b - a.
Proof.
  intros Ha Hb. rewrite slice_inside by lia. unfold len in *.
  rewrite substring_length; lia.
Qed.

(** X3: with a positive chunk size and no positive overlap, the number of
    chunks of a non-empty text is its length divided by the stride
    [chunk_size - overlap], rounded up; no chunk is empty or longer than
    the chunk size, and every chunk but the last has exactly that size. *)
Theorem chunk_text_chunk_sizes
    (text : string) (chunk_size overlap : Z) (fuel : nat) :
  let passes :=
    Z.to_nat (Windows.ceil_div (len text) (chunk_size - overlap)) in
  text <> "" -> overlap <= 0 -> 0 < chunk_size -> (passes <= fuel)%nat ->
  exists cs,
    Chunker.chunk_text fuel text chunk_size overlap = Some cs /\
    List.length cs = passes /\
    forall k c, nth_error cs k = Some c ->
      0 < len c <= chunk_size /\
      ((S k < passes)%nat -> len c = chunk_size).
Proof.
  intros passes Hne Hov Hsize Hfuel.
  destruct (chunk_text_runs_windows text chunk_size overlap fuel Hne Hov)
    as [Hrun _]; [lia | exact Hfuel |].
  exists (Windows.windows text chunk_size overlap passes).
  split; [exact Hrun|]. unfold Windows.windows.
  split; [now rewrite length_map, length_seq|].
  intros k c Hk. rewrite nth_error_map in Hk.
  destruct (nth_error (seq 0 passes) k) as [k'|] eqn:Hseq; [|discriminate].
  pose proof (nth_error_Some (seq 0 passes) k) as Hlt.
  rewrite Hseq, length_seq in Hlt.
  assert (Hk' : (k < passes)%nat) by (apply Hlt; discriminate).
  rewrite nth_error_nth' with (d := O) in Hseq by (rewrite length_seq; lia).
  rewrite seq_nth in Hseq by lia. injection Hseq as <-.
  simpl in Hk. injection Hk as <-.
  pose proof (proj1 (passes_spec text chunk_size overlap k ltac:(lia)) Hk')
    as Hin.
  unfold Windows.window. cbv zeta.
  rewrite slice_len by lia. split; [lia|].
  intros Hnext.
  apply (passes_spec text chunk_size overlap (S k) ltac:(lia)) in Hnext.
  lia.
Qed.

Lemma chunk_text_chunk_sizes_witness :
  exists cs,
    Chunker.chunk_text 3 "abcde" 2 0 = Some cs /\
    List.length cs = 3%nat /\
    forall k c, nth_error cs k = Some c ->
      0 < len c <= 2 /\ ((S k < 3)%nat -> len c = 2).
Proof.
  apply (chunk_text_chunk_sizes "abcde" 2 0 3);
    [discriminate | lia | lia | vm_compute; lia].
Defined.

Lemma chunk_text_windows_witness :
  Chunker.chunk_text 2 "abcdefg" 2 (-2) = Some ["ab"; "ef"] /\ (0 < 2)%nat.
Proof.
  apply (chunk_text_windows "abcdefg" 2 (-2) 2);
    [discriminate | lia | lia | vm_compute; lia].
Defined.

Lemma chunk_text_without_overlap_witness :
  exists cs,
    Chunker.chunk_text 5 "abcde" 2 0 = Some cs /\ cs <> [] /\
    join cs = "abcde".
Proof.
  apply (chunk_text_without_overlap "abcde" 2 5); [lia | simpl; lia].
Defined.

(** ** More on [try_parse_json] *)

Section ExtractorMore.
Import Extractor Windows.

Variable loads : string -> result value.

(** X6: [try_parse_json] never makes a value up: what it returns is
    [None] or a value [json.loads] gave for the reply or for a contiguous
    part of it. *)
Theorem try_parse_json_from_substring (s : string) :
  try_parse_json loads s = PyNone \/
  exists a n, loads (substring a n s) = Ok (try_parse_json loads s).
Proof.
  assert (Hpb : forall o c v, parse_between loads s o c = Ok v ->
                  exists a n, loads (substring a n s) = Ok v).
  { intros o c v. unfold parse_between, index, rindex.
    destruct (find o s); simpl; [|discriminate].
    destruct (rfind c s); simpl; [|discriminate].
    unfold slice. eauto. }
  unfold try_parse_json. destruct (loads s) as [v|e] eqn:L.
  - right. exists O, (String.length s). now rewrite substring_all.
  - destruct (parse_between loads s "{" "}") as [v|e1] eqn:B.
    + right. eapply Hpb, B.
    + destruct (parse_between loads s "[" "]") as [v|e2] eqn:K.
      * right. eapply Hpb, K.
      * now left.
Qed.

(** X7: when the last closing character stands before the first opening
    one, the fallback does not fail on the indices: it parses the empty
    string. *)
Theorem parse_between_reversed (s : string) (o c : ascii) (i j : nat) :
  first_at o s i -> last_at c s j -> (j < i)%nat ->
  parse_between loads s (String o "") (String c "") = loads "".
Proof.
  intros Hi Hj Hlt.
  pose proof (get_lt _ _ _ (proj1 Hi)) as Li.
  apply find_first_at in Hi. apply (rfind_last_at c s) in Hj.
  unfold parse_between, index, rindex. rewrite Hi, Hj. cbn [bind].
  unfold slice, adjust, len.
  destruct (Z.ltb_spec (Z.of_nat i) 0), (Z.ltb_spec (Z.of_nat j + 1) 0);
    try lia.
  rewrite !Z.min_l by lia.
  replace (Z.to_nat (Z.of_nat j + 1 - Z.of_nat i)) with O by lia.
  now rewrite substring_none.
Qed.

Lemma substring_middle (pre body post : string) :
  substring (String.length pre) (String.length body) (pre ++ body ++ post)
  = body.
Proof.
  induction pre as [|c pre IH]; simpl; [|exact IH].
  induction body as [|c body IH]; simpl.
  - destruct post; reflexivity.
  - now rewrite IH.
Qed.

(** X8: a JSON object with prose around it is recovered by the first
    fallback: when the text before it has no opening brace and the text
    after it no closing brace, and the whole reply does not parse, the
    result is what [json.loads] gives for the object alone. *)
Theorem object_in_prose_is_recovered (pre body post : string) (v : value) :
  absent "{" pre -> absent "}" post ->
  String.get 0 body = Some "{"%char ->
  String.get (String.length body - 1) body = Some "}"%char ->
  fails (loads (pre ++ body ++ post)) ->
  loads body = Ok v ->
  try_parse_json loads (pre ++ body ++ post) = v.
Proof.
  intros Hpre Hpost Hopen Hclose [e He] Hv.
  pose proof (get_lt _ _ _ Hopen) as Lb.
  unfold try_parse_json. rewrite He.
  assert (R : recovers loads "{" "}" (pre ++ body ++ post) v).
  { exists (String.length pre), (String.length pre + (String.length body - 1))%nat.
    repeat split.
    - change (String.length pre) with (0 + String.length pre)%nat.
      rewrite <- append_correct2, <- append_correct1; assumption.
    - intros k Hk. rewrite <- append_correct1 by exact Hk. apply Hpre.
    - rewrite Nat.add_comm.
      rewrite <- append_correct2, <- append_correct1; [assumption | lia].
    - intros k Hk.
      replace k with ((k - String.length pre) + String.length pre)%nat by lia.
      rewrite <- append_correct2.
      replace (k - String.length pre)%nat
        with ((k - String.length pre - String.length body)
              + String.length body)%nat by lia.
      rewrite <- append_correct2. apply Hpost.
    - unfold inclusive.
      replace (S (String.length pre + (String.length body - 1))
               - String.length pre)%nat with (String.length body) by lia.
      now rewrite substring_middle. }
  apply parse_between_recovers in R. now rewrite R.
Qed.

End ExtractorMore.

Lemma try_parse_json_from_substring_example :
  Extractor.try_parse_json Extractor.sample_loads "so [1,2] it is"
  = PyList [PyInt 1; PyInt 2].
Proof. reflexivity. Qed.

Lemma parse_between_reversed_witness :
  Extractor.parse_between Extractor.sample_loads "} and {" "{" "}"
  = Raise (ValueError "Expecting value").
Proof.
  apply (parse_between_reversed Extractor.sample_loads "} and {" "{" "}" 6 0).
  - split; [reflexivity|].
    intros [|[|[|[|[|[|k]]]]]] Hk; simpl; solve [discriminate | lia].
  - split; [reflexivity|].
    intros [|[|[|[|[|[|[|k]]]]]]] Hk; simpl; solve [discriminate | lia].
  - lia.
Defined.

Lemma object_in_prose_is_recovered_witness :
  Extractor.try_parse_json Extractor.sample_loads "Sure: {} done" = PyDict [].
Proof.
  apply (object_in_prose_is_recovered Extractor.sample_loads
           "Sure: " "{}" " done" (PyDict [])).
  - intros [|[|[|[|[|[|k]]]]]]; simpl; discriminate.
  - intros [|[|[|[|[|k]]]]]; simpl; discriminate.
  - reflexivity.
  - reflexivity.
  - eexists. reflexivity.
  - reflexivity.
Defined.

(** ** From the recovered values to the saved table *)

Section SavingFacts.
Import Aggregator Materializer.

Lemma aggregate_concat (vs : list value) :
  aggregate vs = List.concat (map contribution vs).
Proof. unfold aggregate. now rewrite fold_aggregate_step. Qed.


(** X9: the members of the record set are the elements of the recovered
    arrays, whatever they are, and the recovered objects.  An element of
    an array is not looked at: a number or a string inside an array
    becomes a record. *)
Theorem record_set_members (vs : list value) (r : value) :
  In r (aggregate vs) <->
  exists v, In v vs /\
    ((exists items, v = PyList items /\ In r items) \/
     (exists o, v = PyDict o /\ r = v)).
Proof.
  rewrite aggregate_concat, in_concat. split.
  - intros (l & Hl & Hr). apply in_map_iff in Hl.
    destruct Hl as (v & <- & Hv). exists v. split; [exact Hv|].
    destruct v; simpl in Hr; try contradiction.
    + left. exists items. auto.
    + right. destruct Hr as [<-|[]]. exists items. auto.
  - intros (v & Hv & [(items & -> & Hr)|(o & -> & ->)]).
    + exists items. split; [|exact Hr].
      apply in_map_iff. now exists (PyList items).
    + exists [PyDict o]. split; [|now left].
      apply in_map_iff. now exists (PyDict o).
Qed.

Variable pd_DataFrame : value -> result DataFrame.
Variable suffix : string -> string.
Variable fs : file_system.

Local Abbreviation save := (save_structured pd_DataFrame suffix fs).
Local Abbreviation finish := (main_save pd_DataFrame suffix fs).

(** X10: the run ends with the warning, and writes nothing, exactly when
    no reply contributed a record: every reply gave [None], a scalar or
    an empty array. *)
Theorem warning_iff_no_contribution (vs : list value) (out : string) :
  finish (aggregate vs) out = Ok [Print NoValidJson]
  <-> forall v, In v vs -> contribution v = [].
Proof.
  rewrite <- Forall_forall.
  assert (E : aggregate vs = [] <-> Forall (fun v => contribution v = []) vs).
  { rewrite aggregate_concat, concat_nil_Forall, Forall_map. reflexivity. }
  rewrite <- E. unfold main_save.
  destruct (aggregate vs) as [|r rs]; [tauto|].
  split; [|discriminate].
  destruct (save (PyList (r :: rs)) out) as [evs|e] eqn:S; cbn [bind];
    [|discriminate].
  apply save_structured_returns in S.
  destruct S as (df & _ & _ & [(_ & _ & ->)|(_ & _ & ->)]); discriminate.
Qed.



(** X12: a single object is saved as a table of one row exactly as the
    one-element list holding it would be, as soon as one of its values
    is not a list; an object whose values are all lists, the empty object
    among them, goes to the table constructor as it is. *)
Theorem single_object_is_one_row
    (items : list (string * value)) (out : string) :
  ((exists k v, In (k, v) items /\ is_list v = false) ->
   save (PyDict items) out = save (PyList [PyDict items]) out) /\
  ((forall k v, In (k, v) items -> is_list v = true) ->
   build_frame pd_DataFrame (PyDict items) = pd_DataFrame (PyDict items)) /\
  ((forall k v, In (k, v) items -> is_list v = true) ->
   forall e, pd_DataFrame (PyDict items) = Raise e ->
     save (PyDict items) out = Raise e) /\
  ((forall k v, In (k, v) items -> is_list v = true) ->
   forall df, pd_DataFrame (PyDict items) = Ok df ->
     mkdir fs out = Ok tt ->
     to_excel fs df out = Ok tt -> to_csv fs df out = Ok tt ->
     exists ev, save (PyDict items) out = Ok [Mkdir out; ev] /\
                (ev = ToExcel out df \/ ev = ToCsv out df)).
Proof.
  assert (A : (forall k v, In (k, v) items -> is_list v = true) ->
              build_frame pd_DataFrame (PyDict items)
              = pd_DataFrame (PyDict items)).
  { intros H. cbn [build_frame].
    assert (forallb (fun kv => is_list (snd kv)) items = true) as ->;
      [|reflexivity].
    apply forallb_forall. intros [k v] Hin. now apply (H k v). }
  split; [|split; [|split]].
  - intros (k & v & Hin & Hv). unfold save_structured. cbn [build_frame].
    assert (forallb (fun kv => is_list (snd kv)) items = false) as ->;
      [|reflexivity].
    destruct (forallb _ items) eqn:F; [|reflexivity].
    rewrite forallb_forall in F. specialize (F (k, v) Hin). simpl in F.
    congruence.
  - exact A.
  - intros H e He. apply save_structured_raises. left. now rewrite (A H).
  - intros H df He Hm Hx Hc.
    destruct (existsb (String.eqb (lower (suffix out))) [".xlsx"; ".xls"])
      eqn:X; eexists; (split; [apply save_structured_returns; exists df;
        rewrite (A H); split; [exact He | split; [exact Hm|]]|]).
    + left. split; [exact X | split; [exact Hx | reflexivity]].
    + now left.
    + right. split; [exact X | split; [exact Hc | reflexivity]].
    + now right.
Qed.

(** X13: whatever is saved, the directory is made first and one file is
    written: a spreadsheet when the lowered extension is [.xlsx] or
    [.xls], and CSV for every other extension and for none. *)
Theorem output_format_by_extension
    (v : value) (out : string) (evs : list event) :
  save v out = Ok evs ->
  exists df,
    (evs = [Mkdir out; ToExcel out df] /\
     (lower (suffix out) = ".xlsx" \/ lower (suffix out) = ".xls")) \/
    (evs = [Mkdir out; ToCsv out df] /\
     lower (suffix out) <> ".xlsx" /\ lower (suffix out) <> ".xls").
Proof.
  intros H. apply save_structured_returns in H.
  destruct H as (df & _ & _ & H). exists df. cbn [existsb] in H.
  destruct (String.eqb_spec (lower (suffix out)) ".xlsx") as [E1|N1];
    destruct (String.eqb_spec (lower (suffix out)) ".xls") as [E2|N2];
    cbn [orb] in H;
    destruct H as [(X & _ & ->)|(X & _ & ->)]; try discriminate X; auto.
Qed.

End SavingFacts.


Lemma output_format_by_extension_witness :
  exists df,
    Materializer.save_structured Materializer.sample_DataFrame
      Materializer.sample_suffix Materializer.sample_fs
      (PyList [PyDict [("a", PyInt 1)]]) "table.xlsm"
    = Ok [ Materializer.Mkdir "table.xlsm";
           Materializer.ToCsv "table.xlsm" df ].
Proof.
  destruct (output_format_by_extension Materializer.sample_DataFrame
              Materializer.sample_suffix Materializer.sample_fs
              (PyList [PyDict [("a", PyInt 1)]])
              "table.xlsm" _ eq_refl) as [df [[H _]|[H _]]].
  - discriminate H.
  - exists df. now rewrite <- H.
Defined.

(** ** Reading the document *)

Section ReadingFacts.
Import TextSource Readers.

Variable suffix : string -> string.
Variable extract_pdf : string -> result string.
Variable extract_docx : string -> result string.
Variable convert_doc_to_docx : string -> result string.

(** X14: an input whose lowered extension is none of [.pdf], [.docx] and
    [.doc], a path without extension among them, is refused without any
    reader being asked, and the message names the lowered extension. *)
Theorem unsupported_extension_is_refused (file_path : string) :
  lower (suffix file_path) <> ".pdf" ->
  lower (suffix file_path) <> ".docx" ->
  lower (suffix file_path) <> ".doc" ->
  extract_text suffix extract_pdf extract_docx convert_doc_to_docx file_path
  = Raise (RuntimeError
             ("Unsupported file extension: " ++ lower (suffix file_path))).
Proof.
  intros N1 N2 N3. unfold extract_text.
  destruct (String.eqb_spec (lower (suffix file_path)) ".pdf"); [easy|].
  destruct (String.eqb_spec (lower (suffix file_path)) ".docx"); [easy|].
  destruct (String.eqb_spec (lower (suffix file_path)) ".doc"); [easy|].
  reflexivity.
Qed.

End ReadingFacts.

Lemma unsupported_extension_is_refused_witness :
  TextSource.extract_text Materializer.sample_suffix
    (fun p => Ok p) (fun p => Ok p) (fun p => Ok p) "notes.TXT"
  = Raise (RuntimeError "Unsupported file extension: .txt").
Proof.
  apply (unsupported_extension_is_refused Materializer.sample_suffix
           (fun p => Ok p) (fun p => Ok p) (fun p => Ok p) "notes.TXT");
    discriminate.
Defined.

Lemma length_append (x y : string) :
  String.length (x ++ y) = (String.length x + String.length y)%nat.
Proof. induction x; simpl; congruence. Qed.

(** The length of [sep.join(parts)]. *)
Lemma concat_length (sep : string) (parts : list string) :
  String.length (String.concat sep parts) =
  (list_sum (map String.length parts)
   + String.length sep * (List.length parts - 1))%nat.
Proof.
  induction parts as [|p parts IH]; [simpl; lia|].
  destruct parts as [|q parts].
  - simpl. lia.
  - change (String.concat sep (p :: q :: parts))
      with (p ++ sep ++ String.concat sep (q :: parts))%string.
    rewrite !length_append, IH. simpl. lia.
Qed.

Lemma concat_empty (sep : string) (parts : list string) :
  sep <> "" ->
  String.concat sep parts = "" <->
  parts = [] \/ parts = [""].
Proof.
  intros Hsep. split.
  - intros E. destruct parts as [|p [|q parts]]; [now left | |].
    + right. simpl in E. now subst.
    + exfalso. pose proof (f_equal String.length E) as L.
      rewrite concat_length in L. simpl in L.
      destruct sep; [congruence | simpl in L; lia].
  - intros [->| ->]; reflexivity.
Qed.

(** X15: the text of a PDF is the texts of its pages, in order, with two
    newline characters between one page and the next, a page without text
    counting as empty.  Nothing is cut: the length is the sum of the page
    lengths plus two per page break, and the text is empty only for a PDF
    without pages or with a single page without text. *)
Theorem extract_pdf_joins_pages
    (reader : string -> result (list (option string)))
    (path : string) (pages : list (option string)) :
  reader path = Ok pages ->
  (pages = [] -> Readers.extract_pdf (Some reader) path = Ok "") /\
  (forall p, pages = [p] ->
     Readers.extract_pdf (Some reader) path = Ok (Readers.or_empty p)) /\
  (forall p q rest, pages = p :: q :: rest ->
     exists tail,
       Readers.extract_pdf (Some (fun _ => Ok (q :: rest))) path = Ok tail /\
       Readers.extract_pdf (Some reader) path
       = Ok (Readers.or_empty p
             ++ String "010"%char (String "010"%char tail))%string) /\
  exists text,
    Readers.extract_pdf (Some reader) path = Ok text /\
    String.length text =
      (list_sum (map (fun p => String.length (Readers.or_empty p)) pages)
       + 2 * (List.length pages - 1))%nat /\
    (text = "" <->
     pages = [] \/ exists p, pages = [p] /\ Readers.or_empty p = "").
Proof.
  intros H. unfold Readers.extract_pdf. rewrite H. cbn [bind].
  split; [|split; [|split]].
  - intros ->. reflexivity.
  - intros p ->. reflexivity.
  - intros p q rest ->. eexists. split; reflexivity.
  - eexists. split; [reflexivity|]. split.
    + rewrite concat_length, map_map, length_map. reflexivity.
    + rewrite concat_empty by discriminate. split.
      * intros [E|E].
        -- left. now destruct pages.
        -- right. destruct pages as [|p [|q pages]]; try discriminate.
           exists p. split; [reflexivity|]. now injection E.
      * intros [->|(p & -> & E)]; [now left|]. right. simpl. now rewrite E.
Qed.

Lemma extract_pdf_joins_pages_witness :
  Readers.extract_pdf (Some (fun _ => Ok [Some "ab"; None; Some "c"]))
    "scan.pdf"
  = Ok ("ab" ++ String "010"%char (String "010"%char
                  (String "010"%char (String "010"%char "c"))))%string.
Proof.
  destruct (extract_pdf_joins_pages
              (fun _ => Ok [Some "ab"; None; Some "c"]) "scan.pdf"
              [Some "ab"; None; Some "c"] eq_refl)
    as (_ & _ & Hmore & _).
  destruct (Hmore _ _ _ eq_refl) as (tail & Htail & H).
  injection Htail as <-. exact H.
Defined.

(** X16: the text of a Word document is its paragraphs, in order, with two
    newline characters between one paragraph and the next; its length is
    the sum of the paragraph lengths plus two per gap, and it is empty
    only for a document without paragraphs or with a single empty one. *)
Theorem extract_docx_joins_paragraphs
    (open_doc : string -> result (list string))
    (path : string) (paragraphs : list string) :
  open_doc path = Ok paragraphs ->
  (paragraphs = [] -> Readers.extract_docx (Some open_doc) path = Ok "") /\
  (forall p, paragraphs = [p] ->
     Readers.extract_docx (Some open_doc) path = Ok p) /\
  (forall p q rest, paragraphs = p :: q :: rest ->
     exists tail,
       Readers.extract_docx (Some (fun _ => Ok (q :: rest))) path = Ok tail /\
       Readers.extract_docx (Some open_doc) path
       = Ok (p ++ String "010"%char (String "010"%char tail))%string) /\
  exists text,
    Readers.extract_docx (Some open_doc) path = Ok text /\
    String.length text =
      (list_sum (map String.length paragraphs)
       + 2 * (List.length paragraphs - 1))%nat /\
    (text = "" <-> paragraphs = [] \/ paragraphs = [""]).
Proof.
  intros H. unfold Readers.extract_docx. rewrite H. cbn [bind].
  split; [|split; [|split]].
  - intros ->. reflexivity.
  - intros p ->. reflexivity.
  - intros p q rest ->. eexists. split; reflexivity.
  - eexists. split; [reflexivity|]. split.
    + rewrite concat_length. reflexivity.
    + apply concat_empty. discriminate.
Qed.

Lemma extract_docx_joins_paragraphs_witness :
  Readers.extract_docx (Some (fun _ => Ok ["Title"; ""; "Body"])) "memo.docx"
  = Ok ("Title" ++ String "010"%char (String "010"%char
                     (String "010"%char (String "010"%char "Body"))))%string.
Proof.
  destruct (extract_docx_joins_paragraphs
              (fun _ => Ok ["Title"; ""; "Body"]) "memo.docx"
              ["Title"; ""; "Body"] eq_refl)
    as (_ & _ & Hmore & _).
  destruct (Hmore _ _ _ eq_refl) as (tail & Htail & H).
  injection Htail as <-. exact H.
Defined.

(** ** The prompt and the run *)

Section PromptFacts.
Import Pipeline Windows.

Lemma append_cancel_l (x y z : string) :
  (x ++ y)%string = (x ++ z)%string -> y = z.
Proof. induction x; simpl; [auto | intros [= H]; auto]. Qed.

(** X17: the chunk is the verbatim end of the prompt: nothing is cut or
    escaped, the prompt is as long as the fixed framing, the instructions
    and the chunk together, and under the same instructions two chunks
    give the same prompt only when they are the same chunk. *)
Theorem build_prompt_keeps_the_chunk (user_prompt doc_text : string) :
  build_prompt user_prompt doc_text
  = (build_prompt user_prompt "" ++ doc_text)%string /\
  String.length (build_prompt user_prompt doc_text)
  = (String.length (build_prompt "" "")
     + String.length user_prompt + String.length doc_text)%nat /\
  forall other,
    build_prompt user_prompt doc_text = build_prompt user_prompt other ->
    doc_text = other.
Proof.
  assert (E : forall d, build_prompt user_prompt d
                        = (build_prompt user_prompt "" ++ d)%string).
  { intros d. unfold build_prompt. cbv zeta.
    rewrite !append_assoc. reflexivity. }
  split; [apply E|]. split.
  - unfold build_prompt. rewrite !length_append. simpl. lia.
  - intros other H. rewrite (E doc_text), (E other) in H.
    eapply append_cancel_l, H.
Qed.

(** X18: the marker between instructions and document is not escaped, so
    the two are not told apart by the prompt: instructions that contain
    the marker give the prompt of shorter instructions with a longer
    document. *)
Theorem build_prompt_is_ambiguous (user_prompt extra doc_text : string) :
  build_prompt (user_prompt ++ document_marker ++ extra) doc_text
  = build_prompt user_prompt (extra ++ document_marker ++ doc_text).
Proof.
  unfold build_prompt, document_marker. cbv zeta.
  rewrite !append_assoc. reflexivity.
Qed.

End PromptFacts.

Section RunFacts.
Import Pipeline Aggregator.

Variable suffix : string -> string.
Variable extract_pdf : string -> result string.
Variable extract_docx : string -> result string.
Variable convert_doc_to_docx : string -> result string.
Variable run_ollama_with_cmd : string -> string -> result string.
Variable loads : string -> result value.
Variable pd_DataFrame : value -> result Materializer.DataFrame.
Variable fs : Materializer.file_system.

Local Abbreviation ask a chunk :=
  (run_ollama_with_cmd (model a) (build_prompt (prompt a) chunk)).
Local Abbreviation loop := (main_loop run_ollama_with_cmd loads).

(** X19: when the model answers for every chunk, the loop gathers the
    records of the replies in the order of the chunks, after the records
    it started with: a reply without usable JSON does not stop it. *)
Theorem main_loop_gathers_all_replies
    (a : args) (chunks : list string) (reply : string -> string) :
  (forall c, In c chunks -> ask a c = Ok (reply c)) ->
  forall all_parsed,
    loop a chunks all_parsed =
    Ok (all_parsed ++
        aggregate
          (map (fun c => Extractor.try_parse_json loads (reply c)) chunks)).
Proof.
  induction chunks as [|c chunks IH]; intros Hall acc; simpl.
  - now rewrite app_nil_r.
  - rewrite (Hall c) by now left. cbn [bind].
    rewrite IH by (intros c' Hc'; apply Hall; now right).
    rewrite !aggregate_concat. simpl.
    now rewrite aggregate_step_contribution, app_assoc.
Qed.

(** X20: when the model fails for a chunk after answering for the chunks
    before it, the loop ends with that failure, whatever the chunks after
    it would have given: the records gathered so far are not returned. *)
Theorem main_loop_stops_at_first_failure
    (a : args) (before after : list string) (c : string) (e : exn) :
  (forall c', In c' before -> exists r, ask a c' = Ok r) ->
  ask a c = Raise e ->
  forall all_parsed, loop a (before ++ c :: after) all_parsed = Raise e.
Proof.
  induction before as [|b before IH]; intros Hbefore Hc acc; simpl.
  - now rewrite Hc.
  - destruct (Hbefore b) as [r Hr]; [now left|]. rewrite Hr. cbn [bind].
    apply IH; [|exact Hc]. intros c' Hc'. apply Hbefore. now right.
Qed.

Local Abbreviation read :=
  (TextSource.extract_text suffix extract_pdf extract_docx
     convert_doc_to_docx).
Local Abbreviation run_main :=
  (main suffix extract_pdf extract_docx convert_doc_to_docx
     run_ollama_with_cmd loads pd_DataFrame fs).

(** X21: what a run comes to.  When the document cannot be read the run
    fails with the reader's error before any model call.  When the
    document is empty the model is asked once, about the empty text, and
    its reply alone decides what is saved.  For every other document the
    run does not get past the chunking, whatever the chunk size. *)
Theorem main_outcomes (a : args) :
  (forall e, read (input a) = Raise e ->
     forall fuel, run_main fuel a = Some (Raise e)) /\
  (read (input a) = Ok "" ->
     forall fuel,
       run_main fuel a =
       Some (reply <- ask a "" ;;
             Materializer.main_save pd_DataFrame suffix fs
               (contribution (Extractor.try_parse_json loads reply))
               (out a))) /\
  (forall doc_text, doc_text <> "" -> read (input a) = Ok doc_text ->
     forall fuel, run_main fuel a = None).
Proof.
  unfold main. repeat split.
  - intros e -> fuel. reflexivity.
  - intros -> fuel. rewrite chunk_text_empty. cbn [main_loop].
    destruct (ask a "") as [reply|e]; cbn [bind]; [|reflexivity].
    now rewrite aggregate_step_contribution.
  - intros doc_text Hne -> fuel.
    rewrite chunk_text_never_left; [reflexivity | | exact Hne].
    left. unfold Chunker.default_overlap. lia.
Qed.

End RunFacts.

Lemma main_loop_gathers_all_replies_witness :
  Pipeline.main_loop (fun _ _ => Ok "[1,2]") Extractor.sample_loads
    {| Pipeline.input := "d.pdf"; Pipeline.model := "llama2";
       Pipeline.prompt := "list the numbers"; Pipeline.out := "o.csv";
       Pipeline.chunk_size := 8000 |}
    ["first"; "second"] [PyInt 0]
  = Ok [PyInt 0; PyInt 1; PyInt 2; PyInt 1; PyInt 2].
Proof.
  apply (main_loop_gathers_all_replies (fun _ _ => Ok "[1,2]")
           Extractor.sample_loads
           {| Pipeline.input := "d.pdf"; Pipeline.model := "llama2";
              Pipeline.prompt := "list the numbers"; Pipeline.out := "o.csv";
              Pipeline.chunk_size := 8000 |}
           ["first"; "second"] (fun _ => "[1,2]")).
  intros c _. reflexivity.
Defined.

Lemma main_loop_stops_at_first_failure_witness :
  Pipeline.main_loop
    (fun _ p =>
       if (p =? Pipeline.build_prompt "p" "bad")%string
       then Raise (RuntimeError "Ollama command failed")
       else Ok "{}")
    Extractor.sample_loads
    {| Pipeline.input := "d.pdf"; Pipeline.model := "llama2";
       Pipeline.prompt := "p"; Pipeline.out := "o.csv";
       Pipeline.chunk_size := 8000 |}
    ["ok"; "bad"; "later"] []
  = Raise (RuntimeError "Ollama command failed").
Proof.
  apply (main_loop_stops_at_first_failure
           (fun _ p =>
              if (p =? Pipeline.build_prompt "p" "bad")%string
              then Raise (RuntimeError "Ollama command failed")
              else Ok "{}")
           Extractor.sample_loads
           {| Pipeline.input := "d.pdf"; Pipeline.model := "llama2";
              Pipeline.prompt := "p"; Pipeline.out := "o.csv";
              Pipeline.chunk_size := 8000 |}
           ["ok"] ["later"] "bad").
  - intros c' [<-|[]]. eexists. reflexivity.
  - reflexivity.
Defined.

(** ** A negative overlap *)

Section NegativeOverlap.
Import Chunker Windows.

Variable text : string.
Variables chunk_size overlap : Z.

Local Abbreviation stride := (chunk_size - overlap).
Local Abbreviation passes := (Z.to_nat (ceil_div (len text) stride)).
Local Abbreviation total cs := (fold_right (fun c acc => len c + acc) 0 cs).

Lemma len_join (cs : list string) : len (join cs) = total cs.
Proof.
  induction cs as [|c cs IH]; simpl; [reflexivity|].
  rewrite <- IH. unfold len. rewrite length_append. lia.
Qed.

Lemma window_len (k : nat) :
  0 < chunk_size -> overlap <= 0 -> (k < passes)%nat ->
  len (window text chunk_size overlap k)
  = Z.min chunk_size (len text - Z.of_nat k * stride).
Proof.
  intros Hsize Hov Hk.
  apply (passes_spec text chunk_size overlap k ltac:(lia)) in Hk.
  unfold window. cbv zeta. rewrite slice_len by lia. lia.
Qed.

(** The windows before the last one are full. *)
Lemma full_windows_total (m : nat) :
  0 < chunk_size -> overlap <= 0 -> (m < passes)%nat ->
  total (map (window text chunk_size overlap) (seq 0 m))
  = Z.of_nat m * chunk_size.
Proof.
  intros Hsize Hov. induction m as [|m IH]; intros Hm; [reflexivity|].
  rewrite seq_S, map_app. cbn [map Nat.add].
  assert (A : forall xs x, total (xs ++ [x]) = total xs + len x).
  { induction xs as [|y xs IHx]; intros x; simpl; [lia|].
    rewrite IHx. lia. }
  rewrite A, IH by lia. rewrite window_len by lia.
  apply (passes_spec text chunk_size overlap (S m) ltac:(lia)) in Hm.
  rewrite Nat2Z.inj_succ in *. nia.
Qed.

(** X5: a negative overlap is accepted, and text is then lost: when the
    text is longer than one chunk, [chunk_text] returns chunks that
    together are shorter than the text, so they cannot be put together
    into it again. *)
Theorem negative_overlap_loses_text (fuel : nat) :
  overlap < 0 -> 0 < chunk_size < len text -> (passes <= fuel)%nat ->
  exists cs,
    chunk_text fuel text chunk_size overlap = Some cs /\
    len (join cs) < len text /\ join cs <> text.
Proof.
  intros Hov Hsize Hfuel.
  assert (Hne : text <> "").
  { intros E. rewrite E in Hsize. unfold len in Hsize; simpl in Hsize. lia. }
  destruct (chunk_text_runs_windows text chunk_size overlap fuel Hne)
    as [Hrun Hpos]; [lia | lia | exact Hfuel |].
  exists (windows text chunk_size overlap passes).
  split; [exact Hrun|].
  assert (L : len (join (windows text chunk_size overlap passes)) < len text).
  { rewrite len_join. unfold windows.
    destruct passes as [|m] eqn:Ep; [lia|].
    rewrite seq_S, map_app. cbn [map Nat.add].
    assert (A : forall xs x, total (xs ++ [x]) = total xs + len x).
    { induction xs as [|y xs IHx]; intros x; simpl; [lia|].
      rewrite IHx. lia. }
    rewrite A. rewrite full_windows_total by lia.
    rewrite window_len by lia.
    destruct m as [|m]; [simpl; lia|]. nia. }
  split; [exact L|]. intros E. rewrite E in L. lia.
Qed.

End NegativeOverlap.

Lemma negative_overlap_loses_text_witness :
  exists cs,
    Chunker.chunk_text 2 "abcdefg" 2 (-2) = Some cs /\
    len (join cs) < len "abcdefg" /\ join cs <> "abcdefg".
Proof.
  apply (negative_overlap_loses_text "abcdefg" 2 (-2) 2);
    [lia | unfold len; simpl; lia | vm_compute; lia].
Defined.
